(** * NanoClaw coordinator: IPC command channel, message processing,
      task snapshots and the per-group execution queue.

    Shallow embedding of [src/index.ts] (the file shipped here as
    [src/unnamed/part_003]), [src/snapshots.ts] ([src/unnamed/part_001]) and,
    where the repository file is not part of the sources, of the
    collaborators it calls ([db.ts], [group-queue.ts]) as the spec describes
    them.

    Conventions of the model.
    - A JS [Date] is its time value in milliseconds ([Z]); [toISOString] is
      the identity on the valid range and throws a [RangeError] outside it.
    - External collaborators whose code is not part of the repository
      (the WhatsApp socket, the cron parser, [Date] string parsing, the agent
      executor, the LID translation, [Math.random]) are oracles in an [Env]
      record carried by the world, so every theorem holds for all of them.
    - Exceptions are an error result of a state monad: the effects performed
      before a [throw] are kept, as in JS.
    - A JS string is held as its UTF-8 encoding, the form in which it
      arrives from the command files, WhatsApp and the store: a Rocq
      [string] of bytes. Equality, prefixes, suffixes and the byte order of
      the store's comparisons are those of the code points. *)

From stdpp Require Import base gmap strings list.
From Stdlib Require Import ZArith String Ascii.
Import ListNotations.
Open Scope string_scope.
Open Scope Z_scope.

(* ------------------------------------------------------------------ *)
(** ** Strings *)

(** JS truthiness of an optional string field: present and non-empty. *)
Definition truthy (o : option string) : bool :=
  match o with
  | Some s => negb (String.eqb s "")
  | None => false
  end.

Fixpoint srev (s : string) : list ascii :=
  match s with
  | EmptyString => []
  | String c t => srev t ++ [c]
  end.

Fixpoint list_prefixb (p l : list ascii) : bool :=
  match p, l with
  | [], _ => true
  | a :: p', b :: l' => Ascii.eqb a b && list_prefixb p' l'
  | _ :: _, [] => false
  end.

(** [s.endsWith(suf)] *)
Definition ends_with (suf s : string) : bool := list_prefixb (srev suf) (srev s).

(** [s.startsWith(pre)] *)
Definition starts_with (pre s : string) : bool := String.prefix pre s.

(** Whitespace skipped by [parseInt] and removed by [trim]: JS's
    WhiteSpace and LineTerminator code points (TAB, LF, VT, FF, CR, SP,
    U+00A0, U+1680, U+2000 to U+200A, U+2028, U+2029, U+202F, U+205F,
    U+3000, U+FEFF), read off their UTF-8 encodings. [js_space1] is a
    one-byte one, [js_space2 a b] the two-byte U+00A0, [js_space3 a b c] a
    three-byte one. *)
Definition js_space1 (c : ascii) : bool :=
  let n := nat_of_ascii c in
  (Nat.eqb n 32 || (Nat.leb 9 n && Nat.leb n 13))%bool.

Definition js_space2 (a b : ascii) : bool :=
  (Nat.eqb (nat_of_ascii a) 194 && Nat.eqb (nat_of_ascii b) 160)%bool.

Definition js_space3 (a b c : ascii) : bool :=
  let x := nat_of_ascii a in
  let y := nat_of_ascii b in
  let z := nat_of_ascii c in
  (Nat.eqb x 225 && Nat.eqb y 154 && Nat.eqb z 128)                  (* U+1680 *)
  || (Nat.eqb x 226 && Nat.eqb y 128
      && ((Nat.leb 128 z && Nat.leb z 138)                            (* U+2000..U+200A *)
          || Nat.eqb z 168 || Nat.eqb z 169 || Nat.eqb z 175))        (* U+2028, U+2029, U+202F *)
  || (Nat.eqb x 226 && Nat.eqb y 129 && Nat.eqb z 159)                (* U+205F *)
  || (Nat.eqb x 227 && Nat.eqb y 128 && Nat.eqb z 128)                (* U+3000 *)
  || (Nat.eqb x 239 && Nat.eqb y 187 && Nat.eqb z 191).               (* U+FEFF *)

(** Leading white space removed. *)
Fixpoint drop_space (l : list ascii) : list ascii :=
  match l with
  | c1 :: t1 =>
      if js_space1 c1 then drop_space t1
      else match t1 with
           | c2 :: t2 =>
               if js_space2 c1 c2 then drop_space t2
               else match t2 with
                    | c3 :: t3 => if js_space3 c1 c2 c3 then drop_space t3 else l
                    | [] => l
                    end
           | [] => l
           end
  | [] => []
  end.

(** Trailing white space removed, on the reversed bytes. *)
Fixpoint drop_space_rev (l : list ascii) : list ascii :=
  match l with
  | c1 :: t1 =>
      if js_space1 c1 then drop_space_rev t1
      else match t1 with
           | c2 :: t2 =>
               if js_space2 c2 c1 then drop_space_rev t2
               else match t2 with
                    | c3 :: t3 => if js_space3 c3 c2 c1 then drop_space_rev t3 else l
                    | [] => l
                    end
           | [] => l
           end
  | [] => []
  end.

(** [s.trim()] *)
Definition js_trim (s : string) : string :=
  string_of_list_ascii (rev (drop_space_rev (rev (drop_space (list_ascii_of_string s))))).

Definition digit_value (c : ascii) : option Z :=
  let n := nat_of_ascii c in
  if (Nat.leb 48 n && Nat.leb n 57)%bool then Some (Z.of_nat n - 48) else None.

(** The longest run of decimal digits at the head of [l]; [None] when there
    is none (NaN). *)
Fixpoint digits_prefix (l : list ascii) (acc : Z) (seen : bool) : option Z :=
  match l with
  | c :: t =>
      match digit_value c with
      | Some d => digits_prefix t (acc * 10 + d) true
      | None => if seen then Some acc else None
      end
  | [] => if seen then Some acc else None
  end.

(** [parseInt(s, 10)]: leading white space, an optional sign, then the
    longest decimal prefix; the rest of the string is ignored. [None] is
    NaN. *)
Definition parseInt10 (s : string) : option Z :=
  match drop_space (list_ascii_of_string s) with
  | "-"%char :: t => option_map Z.opp (digits_prefix t 0 false)
  | "+"%char :: t => digits_prefix t 0 false
  | l => digits_prefix l 0 false
  end.

(* ------------------------------------------------------------------ *)
(** ** JSON values *)

(** A value of a command file's field, as [JSON.parse] returns it. The
    handlers use a number, a boolean, [null], an array or an object only
    through JS's conversions, so those values are given by what the
    conversions return: for a number, [String(n)] and the time value
    [TimeClip(n)] that [new Date(n)] gets ([None]: NaN); for an array or an
    object, [String(v)] ([None] when the conversion throws a TypeError, as
    for an object with its own non-callable [toString]). *)
Inductive JSVal :=
| JStr (s : string)
| JNum (str : string) (tv : option Z)
| JBool (b : bool)
| JNullV
| JCompound (str : option string).

(** JS truthiness: [String(n)] is ["0"] exactly for the numbers 0 and -0. *)
Definition js_truthy (v : JSVal) : bool :=
  match v with
  | JStr s => negb (String.eqb s "")
  | JNum str _ => negb (String.eqb str "0")
  | JBool b => b
  | JNullV => false
  | JCompound _ => true
  end.

(** Truthiness of a field that may be absent ([undefined]). *)
Definition js_truthy_opt (o : option JSVal) : bool :=
  match o with Some v => js_truthy v | None => false end.

(** [String(v)], which is also the property key [obj[v]] looks up and the
    text a template literal inserts; [None] when it throws. *)
Definition js_to_string (v : JSVal) : option string :=
  match v with
  | JStr s => Some s
  | JNum str _ => Some str
  | JBool b => Some (if b then "true" else "false")
  | JNullV => Some "null"
  | JCompound str => str
  end.

(** [o === s] for a string literal [s]. *)
Definition js_is (o : option JSVal) (s : string) : bool :=
  match o with Some (JStr t) => String.eqb t s | _ => false end.

(* ------------------------------------------------------------------ *)
(** ** Dates *)

(** ECMAScript TimeClip: time values beyond 8.64e15 ms are NaN. *)
Definition max_time : Z := 8640000000000000.

Definition time_clip (t : Z) : option Z :=
  if Z.abs t <=? max_time then Some t else None.

(** Decimal rendering of an integer, as [String(n)] / template literals do
    (twenty digits cover every clipped time value). *)
Fixpoint pos_digits (fuel : nat) (n : Z) (acc : string) : string :=
  match fuel with
  | O => acc
  | S f =>
      let acc' := String (ascii_of_nat (Z.to_nat (48 + n mod 10))) acc in
      if n <? 10 then acc' else pos_digits f (n / 10) acc'
  end.

Definition Z_to_dec (z : Z) : string :=
  if z <? 0 then "-" ++ pos_digits 20 (- z) "" else pos_digits 20 z "".

(* ------------------------------------------------------------------ *)
(** ** Data model ([types.ts], the database rows) *)

(** [RegisteredGroup] *)
Record RegisteredGroup := mkGroup {
  g_name : string;
  g_folder : string;
  g_trigger : string;
  g_added_at : Z;
  g_requiresTrigger : option bool;
}.

(** A row of the [scheduled_tasks] table ([ScheduledTask]). *)
Record ScheduledTask := mkTask {
  t_id : string;
  t_group_folder : string;
  t_chat_jid : string;
  t_prompt : string;
  t_schedule_type : string;
  t_schedule_value : string;
  t_context_mode : string;
  t_next_run : option Z;
  t_status : string;
  t_created_at : Z;
}.

(** The element type of [writeTasksSnapshot]'s [tasks] argument. *)
Record TaskView := mkTaskView {
  tv_id : string;
  tv_groupFolder : string;
  tv_prompt : string;
  tv_schedule_type : string;
  tv_schedule_value : string;
  tv_status : string;
  tv_next_run : option Z;
}.

(** [AvailableGroup] of [snapshots.ts]. *)
Record AvailableGroup := mkAvailable {
  ag_jid : string;
  ag_name : string;
  ag_lastActivity : string;
  ag_isRegistered : bool;
}.

(** A row of the [messages] table ([NewMessage]). *)
Record StoredMsg := mkMsg {
  m_id : string;
  m_chat_jid : string;
  m_sender_name : string;
  m_content : string;
  m_timestamp : string;
  m_from_me : bool;
}.

(** A row of the [chats] table. *)
Record Chat := mkChat {
  c_jid : string;
  c_name : string;
  c_last_message_time : string;
}.

(** An inbound WhatsApp message of a [messages.upsert] event, reduced to
    the fields the handler reads. *)
Record WAMessage := mkWA {
  wa_has_message : bool;          (* msg.message is set *)
  wa_remoteJid : option string;   (* msg.key.remoteJid *)
  wa_id : option string;          (* msg.key.id *)
  wa_seconds : Z;                 (* msg.messageTimestamp *)
  wa_fromMe : bool;               (* msg.key.fromMe *)
  wa_pushName : option string;
  wa_text : string;               (* the text content stored by storeMessage *)
}.

(** [AgentResponse] (the structured result of a successful run). *)
Record AgentResponse := mkResponse {
  r_outputType : string;
  r_userMessage : option string;
  r_internalLog : option string;
}.

(** [AgentOutput] of [agent/runner.ts]. *)
Record AgentOutput := mkOutput {
  o_success : bool;                    (* status === 'success' *)
  o_result : option AgentResponse;
  o_newSessionId : option string;
  o_error : option string;
}.

(** What the call [runAgentForGroup(...)] does: return an output or throw. *)
Inductive ExecOutcome :=
| ExecReturns (o : AgentOutput)
| ExecThrows (msg : string).

(** What [sock.sendMessage] does: resolve with a message whose key may
    carry an id, or reject. *)
Inductive SockResult :=
| SockSent (id : option string)
| SockFails.

(** Configuration constants of [config.ts] and the external collaborators
    the coordinator calls. *)
Record Env := mkEnv {
  ASSISTANT_NAME : string;
  MAIN_GROUP_FOLDER : string;
  trigger_test : string -> bool;                   (* TRIGGER_PATTERN.test *)
  sock_send : Z -> string -> string -> SockResult; (* at time, jid, text *)
  cron_next : JSVal -> Z -> option Z;    (* CronExpressionParser.parse(v).next() after now; None: throws *)
  date_parse : string -> option Z;       (* the time value parsed by new Date(s), before TimeClip *)
  iso_of_ms : Z -> string;               (* Date.prototype.toISOString *)
  random_id : Z -> string;               (* Math.random().toString(36).slice(2, 8) *)
  run_agent_for_group : string -> string -> option string -> ExecOutcome;
                                         (* folder, prompt, session *)
  translate_jid : string -> string;      (* LID to phone JID *)
  fetch_groups : option (list (string * string));  (* groupFetchAllParticipating *)
  db_text : JSVal -> option string;      (* the text the store keeps or compares for a
                                            non-string value; None: it throws *)
}.

Inductive LogLevel := LDebug | LInfo | LWarn | LError.

Record LogEntry := mkLog { log_level : LogLevel; log_msg : string }.

(** Calls into the persistent store that the world does not otherwise
    reflect. *)
Inductive DbCall :=
| DbCreateTask (t : ScheduledTask)
| DbUpdateTask (id status : string)
| DbDeleteTask (id : string)
| DbSetRegisteredGroup (jid : string) (g : RegisteredGroup)
| DbSetRouterState (key : string)
| DbSetSession (folder sid : string)
| DbUpdateChatName (jid name : string)
| DbSetLastGroupSync
| DbStoreChatMetadata (jid ts : string)
| DbStoreMessage (m : StoredMsg).

(** The coordinator's state: module-level variables of [index.ts] and the
    parts of the store and of the outside world its code touches. *)
Record World := mkWorld {
  w_env : Env;
  w_now : Z;                                   (* Date.now() *)
  w_groups : gmap string RegisteredGroup;      (* registeredGroups *)
  w_tasks : list ScheduledTask;                (* scheduled_tasks table *)
  w_db : list DbCall;                          (* store writes, in order *)
  w_outbox : list (string * string);           (* sock.sendMessage calls *)
  w_sent_ids : list (string * Z);              (* sentMessageIds, with expiry *)
  w_logs : list LogEntry;
  w_sessions : gmap string string;             (* sessions *)
  w_last_agent_ts : gmap string string;        (* lastAgentTimestamp *)
  w_msgs : list StoredMsg;                     (* messages table *)
  w_chats : list Chat;                         (* chats table *)
  w_snap_tasks : option (list TaskView);       (* ipc/current_tasks.json *)
  w_snap_groups : option (list AvailableGroup);(* ipc/available_groups.json *)
  w_exec : list (string * string);             (* runAgentForGroup calls *)
}.

Definition set_groups (x : gmap string RegisteredGroup) (w : World) : World :=
  mkWorld (w_env w) (w_now w) x (w_tasks w) (w_db w) (w_outbox w) (w_sent_ids w)
    (w_logs w) (w_sessions w) (w_last_agent_ts w) (w_msgs w) (w_chats w)
    (w_snap_tasks w) (w_snap_groups w) (w_exec w).
Definition set_tasks (x : list ScheduledTask) (w : World) : World :=
  mkWorld (w_env w) (w_now w) (w_groups w) x (w_db w) (w_outbox w) (w_sent_ids w)
    (w_logs w) (w_sessions w) (w_last_agent_ts w) (w_msgs w) (w_chats w)
    (w_snap_tasks w) (w_snap_groups w) (w_exec w).
Definition set_db (x : list DbCall) (w : World) : World :=
  mkWorld (w_env w) (w_now w) (w_groups w) (w_tasks w) x (w_outbox w) (w_sent_ids w)
    (w_logs w) (w_sessions w) (w_last_agent_ts w) (w_msgs w) (w_chats w)
    (w_snap_tasks w) (w_snap_groups w) (w_exec w).
Definition set_outbox (x : list (string * string)) (w : World) : World :=
  mkWorld (w_env w) (w_now w) (w_groups w) (w_tasks w) (w_db w) x (w_sent_ids w)
    (w_logs w) (w_sessions w) (w_last_agent_ts w) (w_msgs w) (w_chats w)
    (w_snap_tasks w) (w_snap_groups w) (w_exec w).
Definition set_sent_ids (x : list (string * Z)) (w : World) : World :=
  mkWorld (w_env w) (w_now w) (w_groups w) (w_tasks w) (w_db w) (w_outbox w) x
    (w_logs w) (w_sessions w) (w_last_agent_ts w) (w_msgs w) (w_chats w)
    (w_snap_tasks w) (w_snap_groups w) (w_exec w).
Definition set_logs (x : list LogEntry) (w : World) : World :=
  mkWorld (w_env w) (w_now w) (w_groups w) (w_tasks w) (w_db w) (w_outbox w)
    (w_sent_ids w) x (w_sessions w) (w_last_agent_ts w) (w_msgs w) (w_chats w)
    (w_snap_tasks w) (w_snap_groups w) (w_exec w).
Definition set_sessions (x : gmap string string) (w : World) : World :=
  mkWorld (w_env w) (w_now w) (w_groups w) (w_tasks w) (w_db w) (w_outbox w)
    (w_sent_ids w) (w_logs w) x (w_last_agent_ts w) (w_msgs w) (w_chats w)
    (w_snap_tasks w) (w_snap_groups w) (w_exec w).
Definition set_last_agent_ts (x : gmap string string) (w : World) : World :=
  mkWorld (w_env w) (w_now w) (w_groups w) (w_tasks w) (w_db w) (w_outbox w)
    (w_sent_ids w) (w_logs w) (w_sessions w) x (w_msgs w) (w_chats w)
    (w_snap_tasks w) (w_snap_groups w) (w_exec w).
Definition set_msgs (x : list StoredMsg) (w : World) : World :=
  mkWorld (w_env w) (w_now w) (w_groups w) (w_tasks w) (w_db w) (w_outbox w)
    (w_sent_ids w) (w_logs w) (w_sessions w) (w_last_agent_ts w) x (w_chats w)
    (w_snap_tasks w) (w_snap_groups w) (w_exec w).
Definition set_chats (x : list Chat) (w : World) : World :=
  mkWorld (w_env w) (w_now w) (w_groups w) (w_tasks w) (w_db w) (w_outbox w)
    (w_sent_ids w) (w_logs w) (w_sessions w) (w_last_agent_ts w) (w_msgs w) x
    (w_snap_tasks w) (w_snap_groups w) (w_exec w).
Definition set_snap_tasks (x : option (list TaskView)) (w : World) : World :=
  mkWorld (w_env w) (w_now w) (w_groups w) (w_tasks w) (w_db w) (w_outbox w)
    (w_sent_ids w) (w_logs w) (w_sessions w) (w_last_agent_ts w) (w_msgs w)
    (w_chats w) x (w_snap_groups w) (w_exec w).
Definition set_snap_groups (x : option (list AvailableGroup)) (w : World) : World :=
  mkWorld (w_env w) (w_now w) (w_groups w) (w_tasks w) (w_db w) (w_outbox w)
    (w_sent_ids w) (w_logs w) (w_sessions w) (w_last_agent_ts w) (w_msgs w)
    (w_chats w) (w_snap_tasks w) x (w_exec w).
Definition set_exec (x : list (string * string)) (w : World) : World :=
  mkWorld (w_env w) (w_now w) (w_groups w) (w_tasks w) (w_db w) (w_outbox w)
    (w_sent_ids w) (w_logs w) (w_sessions w) (w_last_agent_ts w) (w_msgs w)
    (w_chats w) (w_snap_tasks w) (w_snap_groups w) x.
(** The clock moving on between two events. *)
Definition set_now (x : Z) (w : World) : World :=
  mkWorld (w_env w) x (w_groups w) (w_tasks w) (w_db w) (w_outbox w)
    (w_sent_ids w) (w_logs w) (w_sessions w) (w_last_agent_ts w) (w_msgs w)
    (w_chats w) (w_snap_tasks w) (w_snap_groups w) (w_exec w).

(* ------------------------------------------------------------------ *)
(** ** A state monad with JS exceptions *)

Inductive res (A : Type) := Ok (a : A) | Exn (e : string).
Arguments Ok {A} a.
Arguments Exn {A} e.

Definition M (A : Type) : Type := World -> World * res A.

Definition retM {A} (a : A) : M A := fun w => (w, Ok a).

Definition bindM {A B} (m : M A) (k : A -> M B) : M B :=
  fun w => match m w with
           | (w', Ok a) => k a w'
           | (w', Exn e) => (w', Exn e)
           end.

Definition throwM {A} (e : string) : M A := fun w => (w, Exn e).

Definition getsM {A} (f : World -> A) : M A := fun w => (w, Ok (f w)).

Definition modifyM (f : World -> World) : M unit := fun w => (f w, Ok tt).

(** [try { m } catch { h }] *)
Definition catchM {A} (m : M A) (h : string -> M A) : M A :=
  fun w => match m w with
           | (w', Exn e) => h e w'
           | r => r
           end.

Notation "'do' x <- m ; k" := (bindM m (fun x => k))
  (at level 200, x name, m at level 100, k at level 200).
Notation "'do_' m ; k" := (bindM m (fun _ => k))
  (at level 200, m at level 100, k at level 200).

Definition logM (lvl : LogLevel) (msg : string) : M unit :=
  modifyM (fun w => set_logs (w_logs w ++ [mkLog lvl msg]) w).

Definition dbM (c : DbCall) : M unit :=
  modifyM (fun w => set_db (w_db w ++ [c]) w).

(** [String(v)] where the code converts a value (a property key, a
    template literal, [parseInt]'s argument): a TypeError when it throws. *)
Definition to_string_M (v : JSVal) : M string :=
  match js_to_string v with
  | Some s => retM s
  | None => throwM "TypeError: Cannot convert object to primitive value"
  end.

(* ------------------------------------------------------------------ *)
(** ** The persistent store ([db.ts]) *)

(** Modelled from the spec: [db.ts] is not part of the sources. A value of
    a command file reaches it as the code has it; a string is kept as it
    is, and what the store makes of any other value is the [db_text]
    oracle (the text it keeps or compares, or an error). *)
Definition db_bind (v : JSVal) : M string :=
  do w <- getsM id;
  match v with
  | JStr s => retM s
  | _ => match db_text (w_env w) v with
         | Some s => retM s
         | None => throwM "TypeError: the store cannot take this value"
         end
  end.

(** The text [db_bind] passes on for a value, if it passes one. *)
Definition db_val (e : Env) (v : JSVal) : option string :=
  match v with JStr s => Some s | _ => db_text e v end.

(** Modelled from the spec: [db.ts] is not part of the sources; the spec
    (section 2) describes the store as get/set/list/delete operations over
    the task table. [getTaskById] reads the row with that id. *)
Definition getTaskById (id : string) : M (option ScheduledTask) :=
  getsM (fun w => List.find (fun t => String.eqb (t_id t) id) (w_tasks w)).

(** Modelled from the spec: [createTask] inserts one row. *)
Definition createTask (t : ScheduledTask) : M unit :=
  do_ dbM (DbCreateTask t);
  modifyM (fun w => set_tasks (w_tasks w ++ [t]) w).

Definition with_status (status : string) (t : ScheduledTask) : ScheduledTask :=
  mkTask (t_id t) (t_group_folder t) (t_chat_jid t) (t_prompt t)
    (t_schedule_type t) (t_schedule_value t) (t_context_mode t) (t_next_run t)
    status (t_created_at t).

(** Modelled from the spec: [updateTask(id, { status })] sets the status of
    the row with that id and leaves every other column and row alone. *)
Definition updateTaskStatus (id status : string) : M unit :=
  do_ dbM (DbUpdateTask id status);
  modifyM (fun w => set_tasks
    (map (fun t => if String.eqb (t_id t) id then with_status status t else t)
         (w_tasks w)) w).

(** Modelled from the spec: [deleteTask] removes the row with that id. *)
Definition deleteTask (id : string) : M unit :=
  do_ dbM (DbDeleteTask id);
  modifyM (fun w => set_tasks
    (List.filter (fun t => negb (String.eqb (t_id t) id)) (w_tasks w)) w).

(** Modelled from the spec: [getMessagesSince(chatJid, since, botPrefix)]
    lists the stored messages of that chat strictly after the cursor
    [since] (the call site reads them as "all messages since last agent
    interaction"), leaving out the bot's own [botPrefix:] lines, in store
    order. *)
Definition getMessagesSince (chatJid since botPrefix : string) (w : World)
  : list StoredMsg :=
  List.filter (fun m => String.eqb (m_chat_jid m) chatJid
                   && String.ltb since (m_timestamp m)
                   && negb (starts_with (botPrefix ++ ":") (m_content m)))
         (w_msgs w).

(** Modelled from the spec: [setRouterState] persists one key. *)
Definition setRouterState (key : string) : M unit := dbM (DbSetRouterState key).

(** [saveState] *)
Definition saveState : M unit :=
  do_ setRouterState "last_timestamp";
  setRouterState "last_agent_timestamp".

(* ------------------------------------------------------------------ *)
(** ** Outbound messages *)

(** [sendMessage(jid, text)]: a failed send is logged, never thrown; the id
    of a sent message is remembered for 60 s ([setTimeout] deletes it, which
    the expiry stamp stands for). *)
Definition sendMessage (jid text : string) : M unit :=
  do w <- getsM id;
  do_ modifyM (fun w => set_outbox (w_outbox w ++ [(jid, text)]) w);
  match sock_send (w_env w) (w_now w) jid text with
  | SockFails => logM LError "Failed to send message"
  | SockSent oid =>
      do_ (if truthy oid
           then modifyM (fun w => set_sent_ids
                  (w_sent_ids w ++ [(default "" oid, w_now w + 60000)]) w)
           else retM tt);
      logM LInfo "Message sent"
  end.

(* ------------------------------------------------------------------ *)
(** ** Snapshots ([snapshots.ts]) *)

(** [writeTasksSnapshot(groupFolder, isMain, tasks)]: the list written to
    [ipc/current_tasks.json]. *)
Definition tasks_snapshot (groupFolder : string) (isMain : bool)
  (tasks : list TaskView) : list TaskView :=
  if isMain then tasks
  else List.filter (fun t => String.eqb (tv_groupFolder t) groupFolder) tasks.

Definition writeTasksSnapshot (groupFolder : string) (isMain : bool)
  (tasks : list TaskView) : M unit :=
  modifyM (fun w => set_snap_tasks (Some (tasks_snapshot groupFolder isMain tasks)) w).

(** [writeGroupsSnapshot]: main sees all groups, the others nothing (the
    [lastSync] stamp of the file is left out). *)
Definition writeGroupsSnapshot (groupFolder : string) (isMain : bool)
  (groups : list AvailableGroup) : M unit :=
  modifyM (fun w => set_snap_groups (Some (if isMain then groups else [])) w).

(* ------------------------------------------------------------------ *)
(** ** Group registry and metadata *)

(** [getAvailableGroups] *)
Definition getAvailableGroups (w : World) : list AvailableGroup :=
  map (fun c => mkAvailable (c_jid c) (c_name c) (c_last_message_time c)
                  (bool_decide (is_Some (w_groups w !! c_jid c))))
      (List.filter (fun c => negb (String.eqb (c_jid c) "__group_sync__")
                        && ends_with "@g.us" (c_jid c)) (w_chats w)).

(** Modelled from the spec: [updateChatName] upserts the chat's name. *)
Definition updateChatName (jid name : string) : M unit :=
  do_ dbM (DbUpdateChatName jid name);
  modifyM (fun w => set_chats
    (if existsb (fun c => String.eqb (c_jid c) jid) (w_chats w)
     then map (fun c => if String.eqb (c_jid c) jid
                        then mkChat jid name (c_last_message_time c) else c) (w_chats w)
     else w_chats w ++ [mkChat jid name ""]) w).

(** [syncGroupMetadata(true)] (the forced form the IPC handler uses): a
    failed fetch is logged, not thrown. *)
Definition syncGroupMetadataForced : M unit :=
  do w <- getsM id;
  match fetch_groups (w_env w) with
  | None => logM LError "Failed to sync group metadata"
  | Some gs =>
      do_ fold_right (fun '(jid, subject) rest =>
             do_ (if negb (String.eqb subject "") then updateChatName jid subject
                  else retM tt); rest) (retM tt) gs;
      do_ dbM DbSetLastGroupSync;
      logM LInfo "Group metadata synced"
  end.

(** [registerGroup(jid, group)], for the group a [register_group] command
    builds from its fields. Refreshing the dashboard has no effect in the
    model. [path.join] throws a TypeError on a folder that is not a string,
    after the entry is stored. The code's entry keeps the raw values; the
    model's keeps a string, [String(v)] for a value that is not one ([""]
    when that conversion throws), which differs from the code only when a
    registration from the main group carries such a field. *)
Definition registerGroup (jid : string) (name folder trigger : JSVal) (added_at : Z)
  : M unit :=
  let txt v := default "" (js_to_string v) in
  let g := mkGroup (txt name) (txt folder) (txt trigger) added_at None in
  do_ modifyM (fun w => set_groups (<[jid := g]> (w_groups w)) w);
  do_ db_bind name; do_ db_bind folder; do_ db_bind trigger;
  do_ dbM (DbSetRegisteredGroup jid g);
  match folder with
  | JStr _ => logM LInfo "Group registered"
  | _ => throwM "TypeError: The path argument must be of type string"
  end.

(* ------------------------------------------------------------------ *)
(** ** IPC command files *)

(** The fields of a command file that the handlers read; [None] is an
    absent field ([undefined]). *)
Record IpcData := mkIpc {
  d_type : option JSVal;
  d_taskId : option JSVal;
  d_prompt : option JSVal;
  d_schedule_type : option JSVal;
  d_schedule_value : option JSVal;
  d_context_mode : option JSVal;
  d_chatJid : option JSVal;
  d_targetJid : option JSVal;
  d_text : option JSVal;
  d_jid : option JSVal;
  d_name : option JSVal;
  d_folder : option JSVal;
  d_trigger : option JSVal;
}.

Definition no_fields : IpcData :=
  mkIpc None None None None None None None None None None None None None.

(** The value [JSON.parse] returns: [null], an object, or another value
    (number, string, boolean, array) on which every field is [undefined]. *)
Inductive JValue := JNull | JObj (d : IpcData) | JOther.

(** The content of a file: a JSON text or bytes [JSON.parse] rejects. *)
Inductive FileContent := FJson (v : JValue) | FRaw (bytes : string).

Definition json_parse (c : FileContent) : M JValue :=
  match c with
  | FJson v => retM v
  | FRaw _ => throwM "SyntaxError: Unexpected token in JSON"
  end.

(** Reading [data.type] (or any field): a TypeError on [null]. *)
Definition fields_of (v : JValue) : M IpcData :=
  match v with
  | JNull => throwM "TypeError: Cannot read properties of null"
  | JObj d => retM d
  | JOther => retM no_fields
  end.

(** [data.type === s] (also the cases of [switch (data.type)]). *)
Definition type_is (d : IpcData) (s : string) : bool := js_is (d_type d) s.

(* ------------------------------------------------------------------ *)
(** ** [processTaskIpc] *)

(** [new Date(s)] for a string: the parsed time value, NaN ([None]) when
    unparseable or out of range. *)
Definition js_new_date (e : Env) (s : string) : option Z :=
  match date_parse e s with Some t => time_clip t | None => None end.

(** [new Date(v)] for a value of a command file: a string is parsed; an
    array or object is converted to its string first (a TypeError when that
    throws, the outer [None]); a number, boolean or [null] is a time value
    ([true] is 1, [false] and [null] are 0). *)
Definition new_date_of (e : Env) (v : JSVal) : option (option Z) :=
  match v with
  | JStr s => Some (js_new_date e s)
  | JNum _ tv => Some tv
  | JBool b => Some (time_clip (if b then 1 else 0))
  | JNullV => Some (time_clip 0)
  | JCompound (Some s) => Some (js_new_date e s)
  | JCompound None => None
  end.

(** [date.toISOString()] throws on an invalid date. *)
Definition toISOString (t : option Z) : M Z :=
  match t with
  | Some v => retM v
  | None => throwM "RangeError: Invalid time value"
  end.

(** The [nextRun] block of [schedule_task]: [NRBreak] is one of its
    [break]s. *)
Inductive NextRun := NRBreak | NRValue (nr : option Z).

Definition compute_next_run (scheduleType scheduleValue : JSVal) : M NextRun :=
  do w <- getsM id;
  if js_is (Some scheduleType) "cron" then
    match cron_next (w_env w) scheduleValue (w_now w) with
    | Some t => retM (NRValue (Some t))
    | None => do_ logM LWarn "Invalid cron expression"; retM NRBreak
    end
  else if js_is (Some scheduleType) "interval" then
    do sv <- to_string_M scheduleValue;
    match parseInt10 sv with
    | Some ms =>
        if ms <=? 0 then do_ logM LWarn "Invalid interval"; retM NRBreak
        else do t <- toISOString (time_clip (w_now w + ms)); retM (NRValue (Some t))
    | None => do_ logM LWarn "Invalid interval"; retM NRBreak
    end
  else if js_is (Some scheduleType) "once" then
    match new_date_of (w_env w) scheduleValue with
    | Some (Some t) => retM (NRValue (Some t))
    | Some None => do_ logM LWarn "Invalid timestamp"; retM NRBreak
    | None => throwM "TypeError: Cannot convert object to primitive value"
    end
  else retM (NRValue None).

Definition context_mode_of (cm : option JSVal) : string :=
  if js_is cm "group" then "group"
  else if js_is cm "isolated" then "isolated" else "isolated".

Definition schedule_task (d : IpcData) (sourceGroup : string) (isMain : bool) : M unit :=
  match d_prompt d, d_schedule_type d, d_schedule_value d, d_targetJid d with
  | Some prompt, Some scheduleType, Some scheduleValue, Some targetJid =>
      if js_truthy prompt && js_truthy scheduleType
         && js_truthy scheduleValue && js_truthy targetJid then
        do key <- to_string_M targetJid;
        do w <- getsM id;
        match w_groups w !! key with
        | None => logM LWarn "Cannot schedule task: target group not registered"
        | Some targetGroupEntry =>
            let targetFolder := g_folder targetGroupEntry in
            if negb isMain && negb (String.eqb targetFolder sourceGroup) then
              logM LWarn "Unauthorized schedule_task attempt blocked"
            else
              do nr <- compute_next_run scheduleType scheduleValue;
              match nr with
              | NRBreak => retM tt
              | NRValue nextRun =>
                  do w <- getsM id;
                  let taskId := "task-" ++ Z_to_dec (w_now w) ++ "-"
                                ++ random_id (w_env w) (w_now w) in
                  do chat_jid <- db_bind targetJid;
                  do prompt_s <- db_bind prompt;
                  do type_s <- db_bind scheduleType;
                  do value_s <- db_bind scheduleValue;
                  do_ createTask (mkTask taskId targetFolder chat_jid prompt_s type_s value_s
                        (context_mode_of (d_context_mode d)) nextRun "active" (w_now w));
                  logM LInfo "Task created via IPC"
              end
        end
      else retM tt
  | _, _, _, _ => retM tt
  end.

(** [pause_task], [resume_task] and [cancel_task] share one shape; the
    store receives [data.taskId] as the code has it. *)
Definition task_op (d : IpcData) (sourceGroup : string) (isMain : bool)
  (apply : string -> M unit) (ok_msg bad_msg : string) : M unit :=
  match d_taskId d with
  | Some v =>
      if js_truthy v then
        do taskId <- db_bind v;
        do task <- getTaskById taskId;
        match task with
        | Some t =>
            if isMain || String.eqb (t_group_folder t) sourceGroup then
              do_ apply taskId; logM LInfo ok_msg
            else logM LWarn bad_msg
        | None => logM LWarn bad_msg
        end
      else retM tt
  | None => retM tt
  end.

Definition processTaskIpc (d : IpcData) (sourceGroup : string) (isMain : bool) : M unit :=
  if type_is d "schedule_task" then schedule_task d sourceGroup isMain
  else if type_is d "pause_task" then
    task_op d sourceGroup isMain (fun id => updateTaskStatus id "paused")
      "Task paused via IPC" "Unauthorized task pause attempt"
  else if type_is d "resume_task" then
    task_op d sourceGroup isMain (fun id => updateTaskStatus id "active")
      "Task resumed via IPC" "Unauthorized task resume attempt"
  else if type_is d "cancel_task" then
    task_op d sourceGroup isMain deleteTask
      "Task cancelled via IPC" "Unauthorized task cancel attempt"
  else if type_is d "refresh_groups" then
    if isMain then
      do_ logM LInfo "Group metadata refresh requested via IPC";
      do_ syncGroupMetadataForced;
      do w <- getsM id;
      writeGroupsSnapshot sourceGroup true (getAvailableGroups w)
    else logM LWarn "Unauthorized refresh_groups attempt blocked"
  else if type_is d "register_group" then
    if negb isMain then logM LWarn "Unauthorized register_group attempt blocked"
    else
      match d_jid d, d_name d, d_folder d, d_trigger d with
      | Some jid, Some name, Some folder, Some trigger =>
          if js_truthy jid && js_truthy name && js_truthy folder && js_truthy trigger then
            do key <- to_string_M jid;
            do w <- getsM id;
            registerGroup key name folder trigger (w_now w)
          else logM LWarn "Invalid register_group request - missing required fields"
      | _, _, _, _ => logM LWarn "Invalid register_group request - missing required fields"
      end
  else logM LWarn "Unknown IPC task type".

(** The body of the [messages/] loop, between [JSON.parse] and [unlinkSync].
    The socket gets [data.chatJid] as the code has it; the model hands it
    the key the authorization looked up, [String(data.chatJid)], which is
    the value itself for a string. *)
Definition processMessageIpc (v : JValue) (sourceGroup : string) (isMain : bool) : M unit :=
  do d <- fields_of v;
  match d_chatJid d, d_text d with
  | Some chatJid, Some text =>
      if type_is d "message" && js_truthy chatJid && js_truthy text then
        do key <- to_string_M chatJid;
        do w <- getsM id;
        let targetGroup := w_groups w !! key in
        if isMain || (match targetGroup with
                      | Some tg => String.eqb (g_folder tg) sourceGroup
                      | None => false end) then
          do text_s <- to_string_M text;
          do_ sendMessage key (ASSISTANT_NAME (w_env w) ++ ": " ++ text_s);
          logM LInfo "IPC message sent"
        else logM LWarn "Unauthorized IPC message attempt blocked"
      else retM tt
  | _, _ => retM tt
  end.

(* ------------------------------------------------------------------ *)
(** ** The IPC directory tree *)

(** [data/ipc/{group}/messages/{file}], [data/ipc/{group}/tasks/{file}] and
    [data/ipc/errors/{file}] ([path.join] of the watcher). *)
Inductive MboxKind := KMessages | KTasks.

Inductive IpcPath :=
| MboxPath (group : string) (kind : MboxKind) (file : string)
| ErrPath (file : string).

#[global] Instance MboxKind_eq_dec : EqDecision MboxKind.
Proof. solve_decision. Defined.

#[global] Instance IpcPath_eq_dec : EqDecision IpcPath.
Proof. solve_decision. Defined.

Definition kind_to_bool (k : MboxKind) : bool :=
  match k with KMessages => true | KTasks => false end.

Definition encode_path (p : IpcPath) : (string * (bool * string)) + string :=
  match p with
  | MboxPath g k f => inl (g, (kind_to_bool k, f))
  | ErrPath f => inr f
  end.

Definition decode_path (x : (string * (bool * string)) + string) : IpcPath :=
  match x with
  | inl (g, (b, f)) => MboxPath g (if b then KMessages else KTasks) f
  | inr f => ErrPath f
  end.

#[global] Program Instance IpcPath_countable : Countable IpcPath :=
  inj_countable' encode_path decode_path _.
Next Obligation. intros [g [] f | f]; reflexivity. Qed.

(** Filesystem operations the watcher performs, in the order it performs
    them. *)
Inductive FsOp :=
| OpRename (src dst : IpcPath)
| OpRead (p : IpcPath)
| OpUnlink (p : IpcPath).

Record IpcFs := mkFs {
  fs_files : gmap IpcPath FileContent;
  fs_dirs : list string;          (* the directories under data/ipc *)
  fs_ops : list FsOp;
}.

(** [fs.renameSync(src, dst)]: replaces [dst]; throws when [src] is missing. *)
Definition fs_rename (src dst : IpcPath) (fs : IpcFs) : option IpcFs :=
  match fs_files fs !! src with
  | Some c => Some (mkFs (<[dst := c]> (delete src (fs_files fs))) (fs_dirs fs)
                         (fs_ops fs ++ [OpRename src dst]))
  | None => None
  end.

(** [fs.readFileSync(p)] *)
Definition fs_read (p : IpcPath) (fs : IpcFs) : option (IpcFs * FileContent) :=
  match fs_files fs !! p with
  | Some c => Some (mkFs (fs_files fs) (fs_dirs fs) (fs_ops fs ++ [OpRead p]), c)
  | None => None
  end.

(** [fs.unlinkSync(p)] *)
Definition fs_unlink (p : IpcPath) (fs : IpcFs) : option IpcFs :=
  match fs_files fs !! p with
  | Some _ => Some (mkFs (delete p (fs_files fs)) (fs_dirs fs) (fs_ops fs ++ [OpUnlink p]))
  | None => None
  end.

(** [fs.existsSync(p)] *)
Definition fs_exists (p : IpcPath) (fs : IpcFs) : bool :=
  bool_decide (is_Some (fs_files fs !! p)).

(** [fs.readdirSync(dir).filter((f) => f.endsWith('.json'))] *)
Definition list_json_files (fs : IpcFs) (g : string) (k : MboxKind) : list string :=
  List.filter (ends_with ".json")
    (omap (fun '(p, _) => match p with
                          | MboxPath g' k' f =>
                              if bool_decide (g' = g /\ k' = k) then Some f else None
                          | ErrPath _ => None
                          end) (map_to_list (fs_files fs))).

Definition processing_name (file : string) : string := file ++ ".processing".

Definition error_name (sourceGroup file : string) : string := sourceGroup ++ "-" ++ file.

Definition log_now (lvl : LogLevel) (msg : string) (w : World) : World :=
  set_logs (w_logs w ++ [mkLog lvl msg]) w.

Definition kind_error_msg (k : MboxKind) : string :=
  match k with
  | KMessages => "Error processing IPC message"
  | KTasks => "Error processing IPC task"
  end.

(** The [catch] block of one file: log, then move the [.processing] file
    (or the original, if the claim failed) to [errors/{group}-{file}]. *)
Definition ipc_file_error (g : string) (k : MboxKind) (file : string)
  (fs : IpcFs) (w : World) : IpcFs * World * res unit :=
  let filePath := MboxPath g k file in
  let processingPath := MboxPath g k (processing_name file) in
  let w := log_now LError (kind_error_msg k) w in
  let sourceFile := if fs_exists processingPath fs then processingPath else filePath in
  if fs_exists sourceFile fs then
    match fs_rename sourceFile (ErrPath (error_name g file)) fs with
    | Some fs' => (fs', w, Ok tt)
    | None => (fs, w, Exn "ENOENT")
    end
  else (fs, w, Ok tt).

(** One iteration of the file loop of [startIpcWatcher]: claim by rename,
    read, parse, handle, unlink. *)
Definition process_file (handler : JValue -> M unit) (g : string) (k : MboxKind)
  (file : string) (fs : IpcFs) (w : World) : IpcFs * World * res unit :=
  let filePath := MboxPath g k file in
  let processingPath := MboxPath g k (processing_name file) in
  match fs_rename filePath processingPath fs with
  | None => ipc_file_error g k file fs w
  | Some fs1 =>
      match fs_read processingPath fs1 with
      | None => ipc_file_error g k file fs1 w
      | Some (fs2, c) =>
          match json_parse c w with
          | (w1, Exn _) => ipc_file_error g k file fs2 w1
          | (w1, Ok v) =>
              match handler v w1 with
              | (w2, Exn _) => ipc_file_error g k file fs2 w2
              | (w2, Ok _) =>
                  match fs_unlink processingPath fs2 with
                  | Some fs3 => (fs3, w2, Ok tt)
                  | None => ipc_file_error g k file fs2 w2
                  end
              end
          end
      end
  end.

(** The handler each directory feeds its files to. *)
Definition handler_for (k : MboxKind) (g : string) (isMain : bool) : JValue -> M unit :=
  match k with
  | KMessages => fun v => processMessageIpc v g isMain
  | KTasks => fun v => do d <- fields_of v; processTaskIpc d g isMain
  end.

Fixpoint process_files (handler : JValue -> M unit) (g : string) (k : MboxKind)
  (files : list string) (fs : IpcFs) (w : World) : IpcFs * World * res unit :=
  match files with
  | [] => (fs, w, Ok tt)
  | f :: rest =>
      match process_file handler g k f fs w with
      | (fs', w', Ok _) => process_files handler g k rest fs' w'
      | r => r
      end
  end.

(** One mailbox directory: list once, process every listed file; an escaping
    error ends the directory with a log line. *)
Definition process_dir (g : string) (isMain : bool) (k : MboxKind)
  (fs : IpcFs) (w : World) : IpcFs * World :=
  match process_files (handler_for k g isMain) g k (list_json_files fs g k) fs w with
  | (fs', w', Ok _) => (fs', w')
  | (fs', w', Exn _) =>
      (fs', log_now LError (match k with
                            | KMessages => "Error reading IPC messages directory"
                            | KTasks => "Error reading IPC tasks directory" end) w')
  end.

(** One poll tick of [processIpcFiles]: every group directory except
    [errors], its [messages/] then its [tasks/]. *)
Definition process_ipc_tick (fs : IpcFs) (w : World) : IpcFs * World :=
  fold_left (fun '(fs, w) g =>
      let isMain := String.eqb g (MAIN_GROUP_FOLDER (w_env w)) in
      let '(fs, w) := process_dir g isMain KMessages fs w in
      process_dir g isMain KTasks fs w)
    (List.filter (fun f => negb (String.eqb f "errors")) (fs_dirs fs)) (fs, w).

(* ------------------------------------------------------------------ *)
(** ** Running the agent for a group *)

Definition newline : string := String (ascii_of_nat 10) "".

(** The double-quote character. *)
Definition dquote : ascii := ascii_of_nat 34.

Fixpoint escape_chars (l : list ascii) : string :=
  match l with
  | [] => ""
  | c :: t =>
      let s := if Ascii.eqb c "&"%char then "&amp;"
               else if Ascii.eqb c "<"%char then "&lt;"
               else if Ascii.eqb c ">"%char then "&gt;"
               else if Ascii.eqb c dquote then "&quot;"
               else String c "" in
      s ++ escape_chars t
  end.

(** [escapeXml] *)
Definition escapeXml (s : string) : string := escape_chars (list_ascii_of_string s).

Definition message_line (m : StoredMsg) : string :=
  "<message sender=" ++ String dquote (escapeXml (m_sender_name m))
  ++ String dquote " time=" ++ String dquote (m_timestamp m)
  ++ String dquote ">" ++ escapeXml (m_content m) ++ "</message>".

(** The prompt [processGroupMessages] hands to the agent. *)
Definition build_prompt (missed : list StoredMsg) : string :=
  "<messages>" ++ newline ++ String.concat newline (map message_line missed)
  ++ newline ++ "</messages>".

Definition task_view (t : ScheduledTask) : TaskView :=
  mkTaskView (t_id t) (t_group_folder t) (t_prompt t) (t_schedule_type t)
    (t_schedule_value t) (t_status t) (t_next_run t).

(** The result of [runAgent] in [index.ts]: a response or [{ error }]. *)
Inductive RunResult := RunOk (r : AgentResponse) | RunError (e : string).

(** [runAgent(group, prompt, chatJid)]: refresh both snapshots, call the
    executor, persist a new session id, map failures to [{ error }]. *)
Definition runAgent (group : RegisteredGroup) (prompt chatJid : string) : M RunResult :=
  do w <- getsM id;
  let isMain := String.eqb (g_folder group) (MAIN_GROUP_FOLDER (w_env w)) in
  let sessionId := w_sessions w !! g_folder group in
  do_ writeTasksSnapshot (g_folder group) isMain (map task_view (w_tasks w));
  do_ writeGroupsSnapshot (g_folder group) isMain (getAvailableGroups w);
  do_ modifyM (fun w => set_exec (w_exec w ++ [(g_folder group, prompt)]) w);
  match run_agent_for_group (w_env w) (g_folder group) prompt sessionId with
  | ExecThrows msg => do_ logM LError "Agent error"; retM (RunError msg)
  | ExecReturns o =>
      do_ (if truthy (o_newSessionId o) then
             let sid := default "" (o_newSessionId o) in
             do_ modifyM (fun w => set_sessions (<[g_folder group := sid]> (w_sessions w)) w);
             dbM (DbSetSession (g_folder group) sid)
           else retM tt);
      if negb (o_success o) then
        do_ logM LError "Agent error";
        retM (RunError (if truthy (o_error o) then default "" (o_error o)
                        else "Unknown agent error"))
      else retM (RunOk (default (mkResponse "log" None None) (o_result o)))
  end.

Definition set_cursor (chatJid ts : string) : M unit :=
  modifyM (fun w => set_last_agent_ts (<[chatJid := ts]> (w_last_agent_ts w)) w).

(** The early return of [processGroupMessages] for a non-main group that
    requires a trigger when no pending message matches [TRIGGER_PATTERN]. *)
Definition trigger_skip (e : Env) (isMainGroup : bool) (group : RegisteredGroup)
  (missedMessages : list StoredMsg) : bool :=
  negb isMainGroup && negb (bool_decide (g_requiresTrigger group = Some false))
  && negb (existsb (fun m => trigger_test e (js_trim (m_content m))) missedMessages).

(** [processGroupMessages(chatJid)]: the executor the group queue calls.
    Typing indicators and dashboard lines have no effect in the model. *)
Definition processGroupMessages (chatJid : string) : M bool :=
  do w <- getsM id;
  match w_groups w !! chatJid with
  | None => retM true
  | Some group =>
      let isMainGroup := String.eqb (g_folder group) (MAIN_GROUP_FOLDER (w_env w)) in
      let sinceTimestamp := default "" (w_last_agent_ts w !! chatJid) in
      let missedMessages := getMessagesSince chatJid sinceTimestamp (ASSISTANT_NAME (w_env w)) w in
      match missedMessages with
      | [] => retM true
      | _ :: _ =>
          if trigger_skip (w_env w) isMainGroup group missedMessages
          then retM true
          else
            let lastTs := List.last (map m_timestamp missedMessages) "" in
            let prompt := build_prompt missedMessages in
            do_ logM LInfo "Processing messages";
            do response <- runAgent group prompt chatJid;
            match response with
            | RunError e =>
                do_ sendMessage chatJid ("[Agent Error] " ++ e);
                do_ set_cursor chatJid lastTs;
                do_ saveState;
                retM true
            | RunOk r =>
                do_ set_cursor chatJid lastTs;
                do_ saveState;
                do w' <- getsM id;
                do_ (if String.eqb (r_outputType r) "message" && truthy (r_userMessage r)
                     then sendMessage chatJid (ASSISTANT_NAME (w_env w') ++ ": "
                                               ++ default "" (r_userMessage r))
                     else retM tt);
                do_ (if truthy (r_internalLog r) then logM LInfo ("Agent: " ++ default "" (r_internalLog r))
                     else retM tt);
                retM true
            end
      end
  end.

(* ------------------------------------------------------------------ *)
(** ** Inbound messages ([messages.upsert]) *)

(** [sentMessageIds.has(id)]: recorded and its 60 s timer not yet fired. *)
Definition sent_id_recorded (id : string) (w : World) : bool :=
  existsb (fun '(i, exp) => String.eqb i id && (w_now w <? exp)) (w_sent_ids w).

(** Modelled from the spec: [storeChatMetadata] upserts the chat's last
    activity time. *)
Definition storeChatMetadata (jid ts : string) : M unit :=
  do_ dbM (DbStoreChatMetadata jid ts);
  modifyM (fun w => set_chats
    (if existsb (fun c => String.eqb (c_jid c) jid) (w_chats w)
     then map (fun c => if String.eqb (c_jid c) jid
                        then mkChat jid (c_name c) ts else c) (w_chats w)
     else w_chats w ++ [mkChat jid jid ts]) w).

(** Modelled from the spec: [storeMessage] inserts one message row. *)
Definition storeMessage (msg : WAMessage) (chatJid ts : string) : M unit :=
  let row := mkMsg (default "" (wa_id msg)) chatJid
               (default chatJid (wa_pushName msg)) (wa_text msg) ts (wa_fromMe msg) in
  do_ dbM (DbStoreMessage row);
  modifyM (fun w => set_msgs (w_msgs w ++ [row]) w).

(** The body of the [messages.upsert] loop for one message. *)
Definition handleInbound (msg : WAMessage) : M unit :=
  if negb (wa_has_message msg) then retM tt
  else
    match wa_remoteJid msg with
    | None => retM tt
    | Some rawJid =>
        if String.eqb rawJid "" || String.eqb rawJid "status@broadcast" then retM tt
        else
          do w <- getsM id;
          let oid := wa_id msg in
          if truthy oid && sent_id_recorded (default "" oid) w then
            modifyM (fun w => set_sent_ids
              (List.filter (fun '(i, _) => negb (String.eqb i (default "" oid))) (w_sent_ids w)) w)
          else
            let chatJid := translate_jid (w_env w) rawJid in
            do t <- toISOString (time_clip (wa_seconds msg * 1000));
            let timestamp := iso_of_ms (w_env w) t in
            do_ storeChatMetadata chatJid timestamp;
            if bool_decide (is_Some (w_groups w !! chatJid))
            then storeMessage msg chatJid timestamp
            else retM tt
    end.

(** [jid.split(sep)[0]]: the text before the first [sep]. *)
Fixpoint before_char (sep : ascii) (s : string) : string :=
  match s with
  | EmptyString => EmptyString
  | String c r => if Ascii.eqb c sep then EmptyString else String c (before_char sep r)
  end.

(** [jid.split('@')[0].split(':')[0]] in [translateJid]. *)
Definition lid_user (jid : string) : string := before_char ":" (before_char "@" jid).

(** [translateJid(jid)], with the cache [lidToPhoneMap] passed and returned.
    [getPNForLID] is [sock.signalRepository.lidMapping.getPNForLID] ([None]
    when it resolves to [null] or throws) and [normalize] is Baileys'
    [jidNormalizedUser]; neither is repository code. Log lines are left
    out. *)
Definition translateJid (getPNForLID : string -> option string)
  (normalize : string -> string) (lidToPhoneMap : gmap string string) (jid : string)
  : gmap string string * string :=
  if negb (ends_with "@lid" jid) then (lidToPhoneMap, jid)
  else
    let lidUser := lid_user jid in
    let cached := lidToPhoneMap !! lidUser in
    if truthy cached then (lidToPhoneMap, default "" cached)
    else
      match getPNForLID jid with
      | Some pnJid =>
          if truthy (Some pnJid) then
            let normalized := normalize pnJid in
            if truthy (Some normalized)
            then (<[lidUser := normalized]> lidToPhoneMap, normalized)
            else (lidToPhoneMap, jid)
          else (lidToPhoneMap, jid)
      | None => (lidToPhoneMap, jid)
      end.

Definition MAX_MESSAGE_ERRORS : Z := 10.

(** The [for (const msg of messages)] loop of the [messages.upsert]
    listener: the first error ends it. *)
Fixpoint handleMessages (messages : list WAMessage) : M unit :=
  match messages with
  | [] => retM tt
  | msg :: rest => do_ handleInbound msg; handleMessages rest
  end.

(** The [messages.upsert] listener for one event, with the module variable
    [messageHandlerErrorCount] passed and returned: the messages in order;
    the first error ends the event and is counted and logged by the
    [.catch]. The boolean tells whether [process.exit(1)] is called (the
    [logger.fatal] line is logged at the error level). *)
Definition handleUpsert (messageHandlerErrorCount : Z) (messages : list WAMessage)
  : M (Z * bool) :=
  fun w =>
    match handleMessages messages w with
    | (w', Ok _) => (w', Ok (0, false))
    | (w', Exn _) =>
        let n := messageHandlerErrorCount + 1 in
        let w' := log_now LError "Error in messages.upsert handler" w' in
        if MAX_MESSAGE_ERRORS <=? n
        then (log_now LError "Too many message handler errors, shutting down" w', Ok (n, true))
        else (w', Ok (n, false))
    end.

(* ------------------------------------------------------------------ *)
(** ** The per-group execution queue ([group-queue.ts]) *)

Module GroupQueue.

(** Modelled from the spec: [group-queue.ts] is not part of the sources;
    section 4.1 of the spec describes it. Each tenant has a slot
    idle/queued/running and a "re-check after completion" bit; queued
    tenants wait in FIFO order; at most [q_max] executions run at once. An
    absent slot is idle. *)
Inductive SlotStatus := Idle | Queued | Running.

#[global] Instance SlotStatus_eq_dec : EqDecision SlotStatus.
Proof. solve_decision. Defined.

Record Queue := mkQueue {
  q_status : gmap string SlotStatus;
  q_recheck : gset string;
  q_waiting : list string;     (* queued tenants, oldest signal first *)
  q_running : list string;     (* one entry per execution in flight *)
  q_max : nat;                 (* MaxConcurrent *)
  q_shutting_down : bool;
}.

Definition slot (q : Queue) (t : string) : SlotStatus :=
  default Idle (q_status q !! t).

Definition init (max : nat) : Queue := mkQueue ∅ ∅ [] [] max false.

(** Modelled from the spec: dispatch moves the oldest queued tenant to
    running and invokes the executor, while the concurrency budget allows. *)
Fixpoint dispatch_fuel (n : nat) (q : Queue) : Queue :=
  match n with
  | O => q
  | S n' =>
      if Nat.ltb (List.length (q_running q)) (q_max q) then
        match q_waiting q with
        | [] => q
        | t :: rest =>
            dispatch_fuel n'
              (mkQueue (<[t := Running]> (q_status q)) (q_recheck q) rest
                 (q_running q ++ [t]) (q_max q) (q_shutting_down q))
        end
      else q
  end.

Definition dispatch (q : Queue) : Queue := dispatch_fuel (List.length (q_waiting q)) q.

(** Modelled from the spec: [signal(tenant)]: an idle tenant becomes queued
    and dispatch is attempted; a queued tenant is left alone; a running
    tenant gets its re-check bit. No admission once shutdown started. *)
Definition signal (t : string) (q : Queue) : Queue :=
  if q_shutting_down q then q
  else
    match slot q t with
    | Idle =>
        dispatch (mkQueue (<[t := Queued]> (q_status q)) (q_recheck q)
                    (q_waiting q ++ [t]) (q_running q) (q_max q) (q_shutting_down q))
    | Queued => q
    | Running =>
        mkQueue (q_status q) ({[t]} ∪ q_recheck q) (q_waiting q) (q_running q)
          (q_max q) (q_shutting_down q)
    end.

(** How an execution ended: the executor's boolean "fully drained", or a
    caught exception. *)
Inductive Completion := Drained | NotDrained | Failed.

#[global] Instance Completion_eq_dec : EqDecision Completion.
Proof. solve_decision. Defined.

(** Modelled from the spec: completion of the tenant's execution releases
    its slot; with the re-check bit set, or when the executor did not drain
    its input, the tenant is queued again, otherwise it is idle (also after
    a failure). Then dispatch is attempted. *)
Definition finish (t : string) (c : Completion) (q : Queue) : Queue :=
  let again := bool_decide (t ∈ q_recheck q) || bool_decide (c = NotDrained) in
  let running := List.filter (fun u => negb (String.eqb u t)) (q_running q) in
  dispatch
    (if again then
       mkQueue (<[t := Queued]> (q_status q)) (q_recheck q ∖ {[t]})
         (q_waiting q ++ [t]) running (q_max q) (q_shutting_down q)
     else
       mkQueue (<[t := Idle]> (q_status q)) (q_recheck q ∖ {[t]})
         (q_waiting q) running (q_max q) (q_shutting_down q)).

(** Modelled from the spec: [shutdown] stops admitting new work. *)
Definition shutdown (q : Queue) : Queue :=
  mkQueue (q_status q) (q_recheck q) (q_waiting q) (q_running q) (q_max q) true.

(** The queue's transitions: a signal, the completion of an execution in
    flight, a shutdown request. *)
Inductive qstep : Queue -> Queue -> Prop :=
| QSignal t q : qstep q (signal t q)
| QFinish t c q : t ∈ q_running q -> qstep q (finish t c q)
| QShutdown q : qstep q (shutdown q).

Definition reachable (max : nat) (q : Queue) : Prop := rtc qstep (init max) q.

(** Executions of [t] in flight. *)
Definition running_count (q : Queue) (t : string) : nat :=
  List.length (List.filter (fun u => String.eqb u t) (q_running q)).

(** The bookkeeping invariant of the queue: each tenant is in flight at
    most once and waits at most once, and its slot status says which. *)
Definition queue_inv (q : Queue) : Prop :=
  NoDup (q_running q)
  /\ NoDup (q_waiting q)
  /\ (forall t, slot q t = Running <-> t ∈ q_running q)
  /\ (forall t, slot q t = Queued <-> t ∈ q_waiting q).

End GroupQueue.

(* ------------------------------------------------------------------ *)
(** ** A concrete deployment, for evaluating the definitions *)

Definition env0 : Env :=
  mkEnv "Andy" "main"
    (fun s => starts_with "@Andy" s)
    (fun _ _ _ => SockSent (Some "3EB0MSG"))
    (fun _ now => Some (now + 60000))
    (fun s => if String.eqb s "2026-11-01T09:00:00.000Z" then Some 1761987600000 else None)
    Z_to_dec
    (fun _ => "k3j9x2")
    (fun _ _ _ => ExecReturns (mkOutput false None None (Some "Agent timed out")))
    (fun j => j)
    None
    js_to_string.

Definition alice : RegisteredGroup := mkGroup "Alice" "alice" "@Andy" 0 None.
Definition bob : RegisteredGroup := mkGroup "Bob" "bob" "@Andy" 0 None.
Definition main_group : RegisteredGroup := mkGroup "Main" "main" "@Andy" 0 (Some false).

Definition bob_task : ScheduledTask :=
  mkTask "task-1-aaaaaa" "bob" "bob-chat@g.us" "daily report" "cron" "0 9 * * *"
    "isolated" (Some 1761987600000) "active" 0.

Definition world0 : World :=
  mkWorld env0 1760000000000
    (<["alice-chat@g.us" := alice]> (<["bob-chat@g.us" := bob]>
       (<["main-chat@s.whatsapp.net" := main_group]> ∅)))
    [bob_task] [] [] [] [] ∅ ∅
    [mkMsg "m1" "alice-chat@g.us" "Carol" "lunch at noon?" "2025-10-09T08:00:00.000Z" false]
    [] None None [].

Definition ipc_data_of (ty : string) : IpcData :=
  mkIpc (Some (JStr ty)) None None None None None None None None None None None None.

(** The task a command with id [id] refers to, as [getTaskById] finds it. *)
Definition task_with_id (id : string) (w : World) : option ScheduledTask :=
  List.find (fun t => String.eqb (t_id t) id) (w_tasks w).


(** The file system after a file was claimed, read and deleted. *)
Definition fs_after_applied (g : string) (k : MboxKind) (file : string)
  (c : FileContent) (fs : IpcFs) : IpcFs :=
  let fp := MboxPath g k file in
  let pp := MboxPath g k (processing_name file) in
  mkFs (delete pp (<[pp := c]> (delete fp (fs_files fs)))) (fs_dirs fs)
       (fs_ops fs ++ [OpRename fp pp; OpRead pp; OpUnlink pp]).

(** The file system after a file was claimed, read and moved to [errors/]. *)
Definition fs_after_dead_letter (g : string) (k : MboxKind) (file : string)
  (c : FileContent) (fs : IpcFs) : IpcFs :=
  let fp := MboxPath g k file in
  let pp := MboxPath g k (processing_name file) in
  let ep := ErrPath (error_name g file) in
  mkFs (<[ep := c]> (delete pp (<[pp := c]> (delete fp (fs_files fs))))) (fs_dirs fs)
       (fs_ops fs ++ [OpRename fp pp; OpRead pp; OpRename pp ep]).

(** A malformed command file in a group's [messages/] directory. *)
Definition fs_bad_msg : IpcFs :=
  mkFs {[MboxPath "alice" KMessages "1.json" := FRaw "{oops"]} ["alice"] [].

(** The filesystem operations one listed file of a mailbox goes through:
    the claim by rename to [.processing], one read of the claimed path, then
    either the deletion or the move to [errors/]. *)
Definition claim_chunk (g : string) (k : MboxKind) (file : string) (ops : list FsOp) : Prop :=
  let fp := MboxPath g k file in
  let pp := MboxPath g k (processing_name file) in
  ops = [OpRename fp pp; OpRead pp; OpUnlink pp]
  \/ ops = [OpRename fp pp; OpRead pp; OpRename pp (ErrPath (error_name g file))].

(** [String(v)] of a field that is present, when it has one. *)
Definition str_of_field (o : option JSVal) : option string :=
  match o with Some v => js_to_string v | None => None end.

(** Whether chat [j] is registered to the group whose folder is [g]. *)
Definition owns_chat (w : World) (g j : string) : bool :=
  match w_groups w !! j with
  | Some tg => String.eqb (g_folder tg) g
  | None => false
  end.

(** A command of group [g] that refers to a resource of another group: a
    message to a chat [g] does not own, a task whose target chat is
    registered to another folder, or a group registration. *)
Definition foreign_ref (w : World) (g : string) (d : IpcData) : bool :=
  (type_is d "message"
     && match str_of_field (d_chatJid d) with
        | Some j => negb (owns_chat w g j)
        | None => false
        end)
  || (type_is d "schedule_task"
        && match str_of_field (d_targetJid d) with
           | Some j => match w_groups w !! j with
                       | Some tg => negb (String.eqb (g_folder tg) g)
                       | None => false
                       end
           | None => false
           end)
  || type_is d "register_group".

(** Whether the handler of directory [k] reaches a warning for a command of
    a non-main group, and the warning it logs. *)
Definition blocked_logged (k : MboxKind) (d : IpcData) : bool :=
  match k with
  | KMessages => type_is d "message" && js_truthy_opt (d_chatJid d) && js_truthy_opt (d_text d)
  | KTasks =>
      negb (type_is d "schedule_task")
      || (js_truthy_opt (d_prompt d) && js_truthy_opt (d_schedule_type d)
          && js_truthy_opt (d_schedule_value d) && js_truthy_opt (d_targetJid d))
  end.

Definition blocked_msg (k : MboxKind) (d : IpcData) : string :=
  match k with
  | KMessages => "Unauthorized IPC message attempt blocked"
  | KTasks =>
      if type_is d "schedule_task" then "Unauthorized schedule_task attempt blocked"
      else if type_is d "register_group" then "Unauthorized register_group attempt blocked"
      else "Unknown IPC task type"
  end.

(** A registration request written into the [messages/] directory of the
    non-main group [alice]. *)
Definition register_cmd : IpcData :=
  mkIpc (Some (JStr "register_group")) None None None None None None None None
    (Some (JStr "evil-chat@g.us")) (Some (JStr "Evil")) (Some (JStr "evil")) (Some (JStr "@Evil")).

(** A message to [bob]'s chat that [alice] writes with a numeric text,
    which is truthy. *)
Definition numeric_text_cmd : IpcData :=
  mkIpc (Some (JStr "message")) None None None None None (Some (JStr "bob-chat@g.us"))
    None (Some (JNum "5" (Some 5))) None None None None.

Definition fs_register_in_messages : IpcFs :=
  mkFs {[MboxPath "alice" KMessages "reg.json" := FJson (JObj register_cmd)]} ["alice"] [].

(** A task for [bob]'s chat, written into [alice]'s [tasks/] directory. *)
Definition foreign_task_cmd : IpcData :=
  mkIpc (Some (JStr "schedule_task")) None (Some (JStr "post bob's secrets")) (Some (JStr "once"))
    (Some (JStr "2026-11-01T09:00:00.000Z")) None None (Some (JStr "bob-chat@g.us")) None None None
    None None.

Definition fs_foreign_task : IpcFs :=
  mkFs {[MboxPath "alice" KTasks "t.json" := FJson (JObj foreign_task_cmd)]} ["alice"] [].

(** The error [runAgent] reports for an executor outcome, if it fails: a
    thrown error, or a result whose status is not success. *)
Definition exec_error (r : ExecOutcome) : option string :=
  match r with
  | ExecThrows msg => Some msg
  | ExecReturns o =>
      if o_success o then None
      else Some (if truthy (o_error o) then default "" (o_error o) else "Unknown agent error")
  end.

(** [alice]'s chat after a second message, one that carries the trigger. *)
Definition msg_lunch : StoredMsg :=
  mkMsg "m1" "alice-chat@g.us" "Carol" "lunch at noon?" "2025-10-09T08:00:00.000Z" false.

Definition msg_triggered : StoredMsg :=
  mkMsg "m2" "alice-chat@g.us" "Carol" "@Andy book a table" "2025-10-09T08:05:00.000Z" false.

Definition world_triggered : World := set_msgs [msg_lunch; msg_triggered] world0.

(** The echo of a reply the bot sent to [alice]'s chat. *)
Definition echo_msg : WAMessage :=
  mkWA true (Some "alice-chat@g.us") (Some "3EB0MSG") 1760000001 true (Some "Andy")
    "Andy: table booked".

(** The world 30 s after the bot sent that reply. *)
Definition world_after_reply : World :=
  set_now (w_now world0 + 30000)
    (fst (sendMessage "alice-chat@g.us" "Andy: table booked" world0)).

(* ------------------------------------------------------------------ *)
(** ** The terminal dashboard (the helpers at the top of [index.ts]) *)

Module Dashboard.

Local Open Scope list_scope.

(** A string is the list of its code points: [for (const char of s)]
    iterates code points. The offsets the code adds up with [char.length]
    and hands to [slice] always fall between whole code points, so they are
    counted here in code points and [slice] is [firstn]/[skipn]. *)
Definition cstr := list Z.

(** [isWideChar] (the same function appears twice in the file). *)
Definition isWideChar (code : Z) : bool :=
  (0x1100 <=? code) && (code <=? 0x115F) ||
  (0x2E80 <=? code) && (code <=? 0x9FFF) ||
  (0xAC00 <=? code) && (code <=? 0xD7AF) ||
  (0xF900 <=? code) && (code <=? 0xFAFF) ||
  (0xFE10 <=? code) && (code <=? 0xFE1F) ||
  (0xFE30 <=? code) && (code <=? 0xFE6F) ||
  (0xFF00 <=? code) && (code <=? 0xFF60) ||
  (0xFFE0 <=? code) && (code <=? 0xFFE6) ||
  (0x20000 <=? code) && (code <=? 0x2FFFF) ||
  (0x2300 <=? code) && (code <=? 0x23FF) ||
  (0x2600 <=? code) && (code <=? 0x27BF) ||
  (0x1F000 <=? code) && (code <=? 0x1FAFF).

(** [isWideChar(code) ? 2 : 1] *)
Definition char_width (code : Z) : Z := if isWideChar code then 2 else 1.

(** [displayWidth]; also the loop of [visibleLength]. *)
Fixpoint displayWidth (s : cstr) : Z :=
  match s with
  | [] => 0
  | c :: r => char_width c + displayWidth r
  end.

(** [[0-9;]] *)
Definition is_ansi_param (c : Z) : bool := (48 <=? c) && (c <=? 57) || (c =? 59).

Fixpoint ansi_params (l : cstr) : option cstr :=
  match l with
  | [] => None
  | c :: r => if c =? 109 then Some r
              else if is_ansi_param c then ansi_params r else None
  end.

(** A match of [ANSI_RE = /\x1b\[[0-9;]*m/] at the head of [l]: the input
    after it. The parameter class does not contain [m], so the greedy star
    never backtracks. *)
Definition ansi_at (l : cstr) : option cstr :=
  match l with
  | c :: d :: r => if (c =? 27) && (d =? 91) then ansi_params r else None
  | _ => None
  end.

(** The global [replace(ANSI_RE, '')] scan: at each position a match is
    removed and the scan resumes after it, otherwise the code point is kept.
    Each step consumes input, so [length] steps reach the end. *)
Fixpoint strip_fuel (n : nat) (l : cstr) : cstr :=
  match n with
  | O => l
  | S n' =>
      match l with
      | [] => []
      | c :: r =>
          match ansi_at l with
          | Some rest => strip_fuel n' rest
          | None => c :: strip_fuel n' r
          end
      end
  end.

(** [stripAnsi] *)
Definition stripAnsi (str : cstr) : cstr := strip_fuel (List.length str) str.

(** [visibleLength] *)
Definition visibleLength (str : cstr) : Z := displayWidth (stripAnsi str).

(** The loop of [truncate]: how many code points of [plain] are kept. *)
Fixpoint truncate_scan (maxVisible width : Z) (plain : cstr) : nat :=
  match plain with
  | [] => O
  | c :: r =>
      if maxVisible <? width + char_width c + 1 then O
      else S (truncate_scan maxVisible (width + char_width c) r)
  end.

(** ['…'] *)
Definition ellipsis : Z := 0x2026.

(** [truncate] *)
Definition truncate (str : cstr) (maxVisible : Z) : cstr :=
  if visibleLength str <=? maxVisible then str
  else
    let plain := stripAnsi str in
    firstn (truncate_scan maxVisible 0 plain) plain ++ [ellipsis].

(** JS [WhiteSpace] and [LineTerminator] code points, which [trim] and
    [trimStart] remove. *)
Definition is_js_ws (c : Z) : bool :=
  existsb (Z.eqb c) [9; 10; 11; 12; 13; 32; 160; 0x1680; 0x2028; 0x2029;
                     0x202F; 0x205F; 0x3000; 0xFEFF]
  || (0x2000 <=? c) && (c <=? 0x200A).

(** [s.trimStart()] *)
Fixpoint trimStart (s : cstr) : cstr :=
  match s with
  | [] => []
  | c :: r => if is_js_ws c then trimStart r else s
  end.

(** The [for] loop of [wrapText]: the final [breakIdx] and [lastSpaceIdx]. *)
Fixpoint break_scan (maxWidth width breakIdx lastSpaceIdx : Z) (l : cstr) : Z * Z :=
  match l with
  | [] => (breakIdx, lastSpaceIdx)
  | c :: r =>
      if maxWidth <? width + char_width c then (breakIdx, lastSpaceIdx)
      else break_scan maxWidth (width + char_width c) (breakIdx + 1)
             (if c =? 32 then breakIdx else lastSpaceIdx) r
  end.

(** The [while] loop of [wrapText], run for at most [fuel] iterations:
    [None] means the loop is still running after them. *)
Fixpoint wrap_loop (fuel : nat) (maxWidth : Z) (remaining : cstr) (lines : list cstr)
  : option (list cstr) :=
  match fuel with
  | O => None
  | S f =>
      if maxWidth <? visibleLength remaining then
        let '(breakIdx, lastSpaceIdx) := break_scan maxWidth 0 0 (-1) remaining in
        let actualBreak := Z.to_nat (if 0 <? lastSpaceIdx then lastSpaceIdx else breakIdx) in
        wrap_loop f maxWidth (trimStart (skipn actualBreak remaining))
          (lines ++ [firstn actualBreak remaining])
      else Some (match remaining with [] => lines | _ => lines ++ [remaining] end)
  end.

(** [wrapText(text, maxWidth)], its loop bounded by [fuel] iterations. *)
Definition wrapText (fuel : nat) (text : cstr) (maxWidth : Z) : option (list cstr) :=
  if visibleLength text <=? maxWidth then Some [text]
  else wrap_loop fuel maxWidth text [].

(** [TAG_INNER_WIDTH], for the configured [ASSISTANT_NAME]. *)
Definition TAG_INNER_WIDTH (assistantName : cstr) : Z :=
  Z.max (displayWidth assistantName) 6.

(** [padTag(name)]; ['['] is 91, [']'] is 93, [' '] is 32. *)
Definition padTag (assistantName name : cstr) : cstr :=
  let nameWidth := displayWidth name in
  let totalPad := TAG_INNER_WIDTH assistantName - nameWidth in
  if totalPad <=? 0 then [91] ++ name ++ [93]
  else
    let leftPad := totalPad / 2 in
    let rightPad := totalPad - leftPad in
    [91] ++ repeat 32 (Z.to_nat leftPad) ++ name ++ repeat 32 (Z.to_nat rightPad) ++ [93].

(** [s.split('\n')] *)
Fixpoint split_nl (s : cstr) : list cstr :=
  match s with
  | [] => [[]]
  | c :: r =>
      if c =? 10 then [] :: split_nl r
      else match split_nl r with
           | [] => [[c]]
           | x :: xs => (c :: x) :: xs
           end
  end.

(** [l.trim()] is a non-empty string. *)
Definition has_visible (l : cstr) : bool := existsb (fun c => negb (is_js_ws c)) l.

Definition MAX_THINKING_LINES : nat := 500.

(** The loop of [pushThinkingLine] over the lines of its argument. *)
Fixpoint push_lines (fuel : nat) (width : Z) (ls : list cstr) (buf : list cstr)
  : option (list cstr) :=
  match ls with
  | [] => Some buf
  | l :: rest =>
      if has_visible l then
        match wrapText fuel l width with
        | Some wrapped => push_lines fuel width rest (buf ++ wrapped)
        | None => None
        end
      else push_lines fuel width rest buf
  end.

(** [pushThinkingLine(line)] on [thinkingBuffer] ([active] is the
    dashboard's flag, [columns] is [process.stdout.columns], [None] when
    undefined). The log-file write and [scheduleRender] leave the buffer
    alone and are not modelled. *)
Definition pushThinkingLine (fuel : nat) (active : bool) (columns : option Z)
  (line : cstr) (thinkingBuffer : list cstr) : option (list cstr) :=
  if negb active then Some thinkingBuffer
  else
    let width := (match columns with Some c => if c =? 0 then 80 else c | None => 80 end) - 6 in
    match push_lines fuel width (split_nl line) thinkingBuffer with
    | None => None
    | Some buf =>
        Some (if (MAX_THINKING_LINES <=? List.length buf)%nat
              then skipn (List.length buf - MAX_THINKING_LINES) buf
              else buf)
    end.

End Dashboard.

(* ------------------------------------------------------------------ *)
(** ** Auxiliary notions for stating properties *)

(** The number of occurrences of the character [a] in [s]. *)
Fixpoint count_char (a : ascii) (s : string) : nat :=
  match s with
  | EmptyString => 0
  | String c r => (if Ascii.eqb c a then 1 else 0) + count_char a r
  end%nat.

(** A computation that leaves the group registry [registeredGroups] alone,
    whatever the world it starts from. *)
Definition keeps_groups {A} (m : M A) : Prop :=
  forall w, w_groups (fst (m w)) = w_groups w.

(** A dashboard buffer already holding [MAX_THINKING_LINES] lines. *)
Definition full_buffer : list (list Z) := repeat [120] 500.

(** A message from a chat nobody registered, and one whose timestamp lies
    beyond the range of [Date]. *)
Definition stranger_msg : WAMessage :=
  mkWA true (Some "stranger@g.us") None 1760000100 false (Some "Eve") "hello".

Definition far_future_msg : WAMessage :=
  mkWA true (Some "alice-chat@g.us") None 9000000000000 false (Some "Eve") "hello".

(* ================================================================== *)
(** * Properties *)

(* ------------------------------------------------------------------ *)
(** ** Task snapshots *)

(** Claim C8: [writeTasksSnapshot] writes every task for the main group and,
    for any other group, exactly the tasks whose owning folder is that
    group's folder, in their original order. *)
Theorem writeTasksSnapshot_visibility (groupFolder : string) (isMain : bool)
  (tasks : list TaskView) (w : World) :
  w_snap_tasks (fst (writeTasksSnapshot groupFolder isMain tasks w))
    = Some (if isMain then tasks
            else List.filter (fun t => String.eqb (tv_groupFolder t) groupFolder) tasks)
  /\ (forall t, In t (default [] (w_snap_tasks (fst (writeTasksSnapshot groupFolder isMain tasks w))))
        <-> In t tasks /\ (isMain = true \/ tv_groupFolder t = groupFolder)).
Proof.
  unfold writeTasksSnapshot, modifyM, tasks_snapshot; simpl.
  split; [done|].
  intros t. destruct isMain; simpl.
  - tauto.
  - rewrite filter_In, String.eqb_eq. intuition congruence.
Qed.

(* ------------------------------------------------------------------ *)
(** ** Task commands: pause, resume, cancel *)

Lemma getTaskById_run (id : string) (w : World) :
  getTaskById id w = (w, Ok (task_with_id id w)).
Proof. reflexivity. Qed.

Lemma truthy_some (s : string) : s <> "" -> truthy (Some s) = true.
Proof. intros H. simpl. apply String.eqb_neq in H. by rewrite H. Qed.

Lemma js_truthy_str (s : string) : s <> "" -> js_truthy (JStr s) = true.
Proof. intros H. simpl. apply String.eqb_neq in H. by rewrite H. Qed.

Lemma bindM_db_bind {A} (v : JSVal) (s : string) (k : string -> M A) (w : World) :
  db_val (w_env w) v = Some s -> bindM (db_bind v) k w = k s w.
Proof.
  intros H. unfold bindM, db_bind, getsM. cbn.
  destruct v; simpl in H |- *; try (rewrite H; reflexivity). by injection H as ->.
Qed.

Lemma bindM_to_string {A} (v : JSVal) (s : string) (k : string -> M A) (w : World) :
  js_to_string v = Some s -> bindM (to_string_M v) k w = k s w.
Proof. intros H. unfold bindM, to_string_M. by rewrite H. Qed.

(** Outcome of [task_op] on the task table, for a store operation that
    only rewrites the task table. *)
Lemma task_op_tasks (d : IpcData) (g : string) (isMain : bool)
  (apply : string -> M unit) (ok bad : string) (w : World) (id : string)
  (f : list ScheduledTask -> list ScheduledTask) :
  d_taskId d = Some (JStr id) -> id <> "" ->
  (forall w0, exists w1, apply id w0 = (w1, Ok tt) /\ w_tasks w1 = f (w_tasks w0)) ->
  w_tasks (fst (task_op d g isMain apply ok bad w)) =
    match task_with_id id w with
    | Some t => if isMain || String.eqb (t_group_folder t) g then f (w_tasks w) else w_tasks w
    | None => w_tasks w
    end.
Proof.
  intros Hid Hne Hap. unfold task_op. rewrite Hid, (js_truthy_str id Hne).
  rewrite (bindM_db_bind (JStr id) id) by reflexivity.
  unfold bindM at 1. rewrite getTaskById_run.
  destruct (task_with_id id w) as [t|]; [|reflexivity].
  destruct (isMain || String.eqb (t_group_folder t) g); [|reflexivity].
  unfold bindM. destruct (Hap w) as [w1 [-> Hw1]]. exact Hw1.
Qed.

(** Claim C5: a pause, resume or cancel command changes the task table
    exactly when the task exists and the issuing group owns it or is the
    main group: the status becomes [paused] or [active], or the row is
    deleted. Otherwise the table is left as it was. *)
Theorem task_commands_owner_or_main (d : IpcData) (g : string) (isMain : bool)
  (w : World) (id : string) (Hid : d_taskId d = Some (JStr id)) (Hne : id <> "") :
  let allowed := exists t, task_with_id id w = Some t
                           /\ (isMain = true \/ t_group_folder t = g) in
  let after := w_tasks (fst (processTaskIpc d g isMain w)) in
  (d_type d = Some (JStr "pause_task") ->
     (allowed -> after = map (fun t => if String.eqb (t_id t) id
                                       then with_status "paused" t else t) (w_tasks w))
     /\ (~ allowed -> after = w_tasks w))
  /\ (d_type d = Some (JStr "resume_task") ->
     (allowed -> after = map (fun t => if String.eqb (t_id t) id
                                       then with_status "active" t else t) (w_tasks w))
     /\ (~ allowed -> after = w_tasks w))
  /\ (d_type d = Some (JStr "cancel_task") ->
     (allowed -> after = List.filter (fun t => negb (String.eqb (t_id t) id)) (w_tasks w))
     /\ (~ allowed -> after = w_tasks w)).
Proof.
  intros allowed after.
  assert (Hcase : forall f apply ok bad,
    (forall w0, exists w1, apply id w0 = (w1, Ok tt) /\ w_tasks w1 = f (w_tasks w0)) ->
    (allowed -> w_tasks (fst (task_op d g isMain apply ok bad w)) = f (w_tasks w))
    /\ (~ allowed -> w_tasks (fst (task_op d g isMain apply ok bad w)) = w_tasks w)).
  { intros f apply ok bad Hap.
    rewrite (task_op_tasks d g isMain apply ok bad w id f Hid Hne Hap).
    unfold allowed. split.
    - intros [t [Ht Hauth]]. rewrite Ht.
      destruct Hauth as [-> | <-]; [reflexivity|].
      by rewrite String.eqb_refl, orb_true_r.
    - intros Hn. destruct (task_with_id id w) as [t|] eqn:Ht; [|reflexivity].
      destruct (isMain || String.eqb (t_group_folder t) g) eqn:Ha; [|reflexivity].
      exfalso. apply Hn. exists t. split; [done|].
      apply orb_true_iff in Ha as [Ha|Ha]; [by left|right].
      by apply String.eqb_eq. }
  unfold after, processTaskIpc, type_is.
  split; [|split]; intros Hty; rewrite Hty; simpl;
    apply Hcase; intros w0; eexists; split; reflexivity.
Qed.

(** A non-main group pausing another group's task leaves the table alone. *)
Lemma task_commands_owner_or_main_witness :
  d_taskId (mkIpc (Some (JStr "pause_task")) (Some (JStr "task-1-aaaaaa")) None None None None None
              None None None None None None) = Some (JStr "task-1-aaaaaa")
  /\ "task-1-aaaaaa" <> ""
  /\ w_tasks (fst (processTaskIpc (mkIpc (Some (JStr "pause_task")) (Some (JStr "task-1-aaaaaa")) None
        None None None None None None None None None None) "alice" false world0))
     = w_tasks world0.
Proof.
  split; [reflexivity|]. split; [discriminate|].
  destruct (task_commands_owner_or_main
              (mkIpc (Some (JStr "pause_task")) (Some (JStr "task-1-aaaaaa")) None None None None None
                 None None None None None None) "alice" false world0 "task-1-aaaaaa"
              eq_refl ltac:(discriminate)) as [Hp _].
  apply (proj2 (Hp eq_refl)).
  intros [t [Ht [Hm | Hf]]]; [discriminate|].
  vm_compute in Ht. injection Ht as <-. vm_compute in Hf. discriminate.
Defined.

(* ------------------------------------------------------------------ *)
(** ** Creating a task *)









(** [parseInt] skips a leading no-break space (U+00A0) as JS does. *)
Lemma parseInt10_nbsp : parseInt10 (String (Ascii.ascii_of_nat 194)
  (String (Ascii.ascii_of_nat 160) "5000")) = Some 5000.
Proof. reflexivity. Qed.

(* ------------------------------------------------------------------ *)
(** ** The life of one command file *)

Lemma processing_name_neq (file : string) : file <> processing_name file.
Proof.
  unfold processing_name. induction file as [|a f IH]; simpl; [discriminate|].
  intros H. injection H as H. exact (IH H).
Qed.

Lemma json_parse_world (c : FileContent) (w : World) :
  fst (json_parse c w) = w.
Proof. by destruct c. Qed.

(** A listed file whose content parses and whose handler returns is
    deleted. *)
Lemma process_file_applied (h : JValue -> M unit) (g : string) (k : MboxKind)
  (file : string) (fs : IpcFs) (w w2 : World) (v : JValue) :
  fs_files fs !! MboxPath g k file = Some (FJson v) ->
  h v w = (w2, Ok tt) ->
  process_file h g k file fs w = (fs_after_applied g k file (FJson v) fs, w2, Ok tt).
Proof.
  intros Hf Hh. unfold process_file, fs_rename. rewrite Hf.
  unfold fs_read. simpl. rewrite lookup_insert_eq. simpl. rewrite Hh.
  unfold fs_unlink. simpl. rewrite lookup_insert_eq.
  unfold fs_after_applied. by rewrite <- !app_assoc.
Qed.

(** A listed file whose content does not parse, or whose handler throws, is
    moved to [errors/{group}-{file}] with its content. *)
Lemma process_file_dead_letter (h : JValue -> M unit) (g : string) (k : MboxKind)
  (file : string) (fs : IpcFs) (w w2 : World) (c : FileContent) :
  fs_files fs !! MboxPath g k file = Some c ->
  (match c with
   | FRaw _ => w2 = w
   | FJson v => exists e, h v w = (w2, Exn e)
   end) ->
  process_file h g k file fs w =
    (fs_after_dead_letter g k file c fs, log_now LError (kind_error_msg k) w2, Ok tt).
Proof.
  intros Hf Hc. unfold process_file, fs_rename. rewrite Hf.
  unfold fs_read. simpl. rewrite lookup_insert_eq.
  assert (Herr : forall w', ipc_file_error g k file
             (mkFs (<[MboxPath g k (processing_name file) := c]>
                      (delete (MboxPath g k file) (fs_files fs))) (fs_dirs fs)
                   ((fs_ops fs ++ [OpRename (MboxPath g k file) (MboxPath g k (processing_name file))])
                    ++ [OpRead (MboxPath g k (processing_name file))])) w'
           = (fs_after_dead_letter g k file c fs, log_now LError (kind_error_msg k) w', Ok tt)).
  { intros w'. unfold ipc_file_error, fs_exists. simpl.
    rewrite lookup_insert_eq. simpl. unfold fs_rename. simpl.
    rewrite lookup_insert_eq. unfold fs_after_dead_letter. by rewrite <- !app_assoc. }
  destruct c as [v|raw]; simpl.
  - destruct Hc as [e He]. rewrite He. apply Herr.
  - subst w2. apply Herr.
Qed.

Lemma mbox_processing_neq (g : string) (k : MboxKind) (file : string) :
  MboxPath g k file <> MboxPath g k (processing_name file).
Proof. intros H. injection H as H. exact (processing_name_neq file H). Qed.

(** Claim C2: a command file taken up by the watcher ends in exactly one of
    two states. Either its content parsed and its handler returned, and
    then it is deleted and [errors/] is untouched. Or it did not parse or
    its handler threw, and then it sits in [errors/{group}-{file}] with its
    content unchanged. In both cases neither the original nor the
    [.processing] name is left, no other file changes, and the last
    operation on the file is its one terminal action. *)
Theorem command_file_terminal_state (h : JValue -> M unit) (g : string) (k : MboxKind)
  (file : string) (fs : IpcFs) (w : World) (c : FileContent)
  (Hc : fs_files fs !! MboxPath g k file = Some c) :
  let fp := MboxPath g k file in
  let pp := MboxPath g k (processing_name file) in
  let ep := ErrPath (error_name g file) in
  let applied := match c with
                 | FJson v => exists w2, h v w = (w2, Ok tt)
                 | FRaw _ => False
                 end in
  let out := process_file h g k file fs w in
  snd out = Ok tt
  /\ fs_files (fst (fst out)) !! fp = None
  /\ fs_files (fst (fst out)) !! pp = None
  /\ (applied ->
        fs_files (fst (fst out)) !! ep = fs_files fs !! ep
        /\ fs_ops (fst (fst out)) = (fs_ops fs ++ [OpRename fp pp; OpRead pp; OpUnlink pp])%list)
  /\ (~ applied ->
        fs_files (fst (fst out)) !! ep = Some c
        /\ fs_ops (fst (fst out)) = (fs_ops fs ++ [OpRename fp pp; OpRead pp; OpRename pp ep])%list)
  /\ (forall p, p <> fp -> p <> pp -> p <> ep ->
        fs_files (fst (fst out)) !! p = fs_files fs !! p).
Proof.
  intros fp pp ep applied out.
  assert (Hfp : fp <> pp) by apply mbox_processing_neq.
  assert (Hep : ep <> pp) by discriminate.
  assert (Hef : ep <> fp) by discriminate.
  assert (Hframe_a : forall p, p <> fp -> p <> pp ->
            fs_files (fs_after_applied g k file c fs) !! p = fs_files fs !! p).
  { intros p H1 H2. unfold fs_after_applied. simpl.
    rewrite lookup_delete_ne, lookup_insert_ne, lookup_delete_ne; (unfold fp, pp, ep in *; congruence). }
  assert (Hframe_d : forall p, p <> fp -> p <> pp -> p <> ep ->
            fs_files (fs_after_dead_letter g k file c fs) !! p = fs_files fs !! p).
  { intros p H1 H2 H3. unfold fs_after_dead_letter. simpl.
    rewrite lookup_insert_ne, lookup_delete_ne, lookup_insert_ne, lookup_delete_ne;
      (unfold fp, pp, ep in *; congruence). }
  assert (Hgone_a : fs_files (fs_after_applied g k file c fs) !! fp = None
                    /\ fs_files (fs_after_applied g k file c fs) !! pp = None).
  { unfold fs_after_applied. simpl. split.
    - rewrite lookup_delete_ne, lookup_insert_ne by (unfold fp, pp, ep in *; congruence). apply lookup_delete_eq.
    - apply lookup_delete_eq. }
  assert (Hgone_d : fs_files (fs_after_dead_letter g k file c fs) !! fp = None
                    /\ fs_files (fs_after_dead_letter g k file c fs) !! pp = None
                    /\ fs_files (fs_after_dead_letter g k file c fs) !! ep = Some c).
  { unfold fs_after_dead_letter. simpl. split; [|split].
    - rewrite lookup_insert_ne, lookup_delete_ne, lookup_insert_ne by (unfold fp, pp, ep in *; congruence).
      apply lookup_delete_eq.
    - rewrite lookup_insert_ne by (unfold fp, pp, ep in *; congruence). apply lookup_delete_eq.
    - apply lookup_insert_eq. }
  assert (Hdead : forall w2, out = (fs_after_dead_letter g k file c fs, w2, Ok tt) -> ~ applied ->
    snd out = Ok tt
    /\ fs_files (fst (fst out)) !! fp = None
    /\ fs_files (fst (fst out)) !! pp = None
    /\ (applied -> fs_files (fst (fst out)) !! ep = fs_files fs !! ep
          /\ fs_ops (fst (fst out)) = (fs_ops fs ++ [OpRename fp pp; OpRead pp; OpUnlink pp])%list)
    /\ (~ applied -> fs_files (fst (fst out)) !! ep = Some c
          /\ fs_ops (fst (fst out)) = (fs_ops fs ++ [OpRename fp pp; OpRead pp; OpRename pp ep])%list)
    /\ (forall p, p <> fp -> p <> pp -> p <> ep ->
          fs_files (fst (fst out)) !! p = fs_files fs !! p)).
  { intros w2 -> Hn. simpl. destruct Hgone_d as (H1 & H2 & H3).
    repeat split; try tauto. }
  destruct c as [v|raw].
  - destruct (h v w) as [w2 [[]|e]] eqn:Hh.
    + assert (Ha : applied) by (exists w2; done).
      assert (Ho : out = (fs_after_applied g k file (FJson v) fs, w2, Ok tt))
        by (apply process_file_applied; done).
      rewrite Ho. simpl. destruct Hgone_a as [H1 H2].
      repeat split; try tauto.
      all: try (apply Hframe_a; unfold fp, pp, ep in *; congruence).
      all: try (intros p H3 H4 _; by apply Hframe_a).
    + apply (Hdead (log_now LError (kind_error_msg k) w2)).
      * apply process_file_dead_letter; [done|]. by exists e.
      * intros [w3 Hw3]. congruence.
  - apply (Hdead (log_now LError (kind_error_msg k) w)).
    + by apply process_file_dead_letter.
    + tauto.
Qed.

(** A malformed file in a group's [messages/] directory ends in [errors/]. *)
Lemma command_file_terminal_state_witness :
  fs_files fs_bad_msg !! MboxPath "alice" KMessages "1.json" = Some (FRaw "{oops")
  /\ fs_files (fst (fst (process_file (handler_for KMessages "alice" false) "alice"
        KMessages "1.json" fs_bad_msg world0))) !! ErrPath "alice-1.json"
     = Some (FRaw "{oops").
Proof.
  assert (Hc : fs_files fs_bad_msg !! MboxPath "alice" KMessages "1.json"
               = Some (FRaw "{oops")) by (vm_compute; reflexivity).
  split; [exact Hc|].
  destruct (command_file_terminal_state (handler_for KMessages "alice" false) "alice"
              KMessages "1.json" fs_bad_msg world0 (FRaw "{oops") Hc)
    as (_ & _ & _ & _ & Hd & _).
  apply (proj1 (Hd (fun x => x))).
Defined.


(* ------------------------------------------------------------------ *)
(** ** Claiming a command file before reading it *)

Lemma srev_app (a b : string) : srev (a ++ b) = (srev b ++ srev a)%list.
Proof.
  induction a as [|c a IH]; simpl.
  - by rewrite app_nil_r.
  - by rewrite IH, app_assoc.
Qed.

(** A claimed name never passes the [.json] filter of the listing. *)
Lemma processing_name_not_json (x : string) :
  ends_with ".json" (processing_name x) = false.
Proof. unfold ends_with, processing_name. rewrite srev_app. reflexivity. Qed.

Lemma list_json_files_spec (fs : IpcFs) (g : string) (k : MboxKind) (f : string) :
  In f (list_json_files fs g k) ->
  ends_with ".json" f = true /\ is_Some (fs_files fs !! MboxPath g k f).
Proof.
  unfold list_json_files. rewrite filter_In. intros [Hin Hj]. split; [done|].
  apply list_elem_of_In, list_elem_of_omap in Hin as [[p c] [Hp Hf]].
  apply elem_of_map_to_list in Hp.
  destruct p as [g' k' f'|f']; [|discriminate].
  case_bool_decide as Hgk; [|discriminate].
  destruct Hgk as [-> ->]. injection Hf as ->. by exists c.
Qed.

Lemma NoDup_omap_fst {A B C : Type} (f : A * B -> option C) (l : list (A * B)) :
  NoDup l.*1 ->
  (forall a b x, a ∈ l -> b ∈ l -> f a = Some x -> f b = Some x -> a.1 = b.1) ->
  NoDup (omap f l).
Proof.
  induction l as [|a l IH]; intros Hnd Hinj; simpl; [constructor|].
  inversion Hnd as [|? ? Hnin Hnd']; subst.
  assert (IH' : NoDup (omap f l)).
  { apply IH; [done|]. intros a' b' x Ha Hb. apply Hinj; by right. }
  destruct (f a) as [x|] eqn:Hfa; [|done].
  constructor; [|done].
  intros Hx. apply list_elem_of_omap in Hx as [b [Hb Hfb]].
  apply Hnin. rewrite (Hinj a b x); [|by left|by right|done|done].
  by apply list_elem_of_fmap_2.
Qed.

Lemma list_json_files_NoDup (fs : IpcFs) (g : string) (k : MboxKind) :
  NoDup (list_json_files fs g k).
Proof.
  unfold list_json_files. apply NoDup_ListNoDup, List.NoDup_filter, NoDup_ListNoDup.
  apply NoDup_omap_fst.
  - apply NoDup_fst_map_to_list.
  - intros [p c] [p' c'] x _ _ Hp Hp'. simpl.
    destruct p as [g1 k1 f1|f1]; [|discriminate].
    destruct p' as [g2 k2 f2|f2]; [|discriminate].
    case_bool_decide as H1; [|discriminate].
    case_bool_decide as H2; [|discriminate].
    destruct H1 as [-> ->], H2 as [-> ->].
    injection Hp as ->. injection Hp' as ->. done.
Qed.

(** One present file: the directory loop continues, the file's operations
    form one [claim_chunk], and no other path is touched. *)
Lemma process_file_present (h : JValue -> M unit) (g : string) (k : MboxKind)
  (file : string) (fs : IpcFs) (w : World) (c : FileContent) :
  fs_files fs !! MboxPath g k file = Some c ->
  exists fs' w' ops,
    process_file h g k file fs w = (fs', w', Ok tt)
    /\ claim_chunk g k file ops
    /\ fs_ops fs' = (fs_ops fs ++ ops)%list
    /\ (forall p, p <> MboxPath g k file -> p <> MboxPath g k (processing_name file) ->
          p <> ErrPath (error_name g file) -> fs_files fs' !! p = fs_files fs !! p).
Proof.
  intros Hc.
  assert (Hdead : forall w2, process_file h g k file fs w =
            (fs_after_dead_letter g k file c fs, w2, Ok tt) ->
          exists fs' w' ops,
            process_file h g k file fs w = (fs', w', Ok tt)
            /\ claim_chunk g k file ops
            /\ fs_ops fs' = (fs_ops fs ++ ops)%list
            /\ (forall p, p <> MboxPath g k file -> p <> MboxPath g k (processing_name file) ->
                  p <> ErrPath (error_name g file) -> fs_files fs' !! p = fs_files fs !! p)).
  { intros w2 Ho. rewrite Ho. do 3 eexists. split; [reflexivity|].
    split; [right; reflexivity|]. split; [reflexivity|].
    intros p H1 H2 H3. unfold fs_after_dead_letter. simpl.
    rewrite lookup_insert_ne, lookup_delete_ne, lookup_insert_ne, lookup_delete_ne;
      congruence. }
  destruct c as [v|raw].
  - destruct (h v w) as [w2 [[]|e]] eqn:Hh.
    + rewrite (process_file_applied h g k file fs w w2 v Hc Hh).
      do 3 eexists. split; [reflexivity|].
      split; [left; reflexivity|]. split; [reflexivity|].
      intros p H1 H2 H3. unfold fs_after_applied. simpl.
      rewrite lookup_delete_ne, lookup_insert_ne, lookup_delete_ne; congruence.
    + apply (Hdead (log_now LError (kind_error_msg k) w2)).
      apply process_file_dead_letter; [done|]. by exists e.
  - apply (Hdead (log_now LError (kind_error_msg k) w)).
    by apply process_file_dead_letter.
Qed.

Lemma process_files_chunks (h : JValue -> M unit) (g : string) (k : MboxKind)
  (files : list string) (fs : IpcFs) (w : World) :
  NoDup files ->
  (forall f, In f files ->
     ends_with ".json" f = true /\ is_Some (fs_files fs !! MboxPath g k f)) ->
  exists chunks,
    Forall2 (claim_chunk g k) files chunks
    /\ snd (process_files h g k files fs w) = Ok tt
    /\ fs_ops (fst (fst (process_files h g k files fs w))) = (fs_ops fs ++ List.concat chunks)%list.
Proof.
  revert fs w. induction files as [|f rest IH]; intros fs w Hnd Hok; simpl.
  - exists []. split; [constructor|]. split; [done|]. by rewrite app_nil_r.
  - inversion Hnd as [|? ? Hnin Hnd']; subst.
    destruct (Hok f (or_introl eq_refl)) as [Hjf [c Hc]].
    destruct (process_file_present h g k f fs w c Hc)
      as (fs' & w' & ops & Ho & Hch & Hops & Hfr).
    rewrite Ho.
    destruct (IH fs' w' Hnd') as (chunks & Hf2 & Hres & Hops').
    { intros f' Hin. destruct (Hok f' (or_intror Hin)) as [Hj Hs]. split; [done|].
      rewrite Hfr; [done| | |discriminate].
      - intros Heq. injection Heq as ->. apply Hnin. by apply list_elem_of_In.
      - intros Heq. injection Heq as Heq. subst f'.
        by rewrite processing_name_not_json in Hj. }
    exists (ops :: chunks). split; [by constructor|]. split; [done|].
    simpl. rewrite Hops', Hops. by rewrite <- app_assoc.
Qed.

(** Claim C6: in one pass over a mailbox directory, the listing never
    contains a claimed ([.processing]) name and lists each file once; every
    listed file is first renamed to its [.processing] path, then that path
    is read exactly once, then it is deleted or moved to [errors/]; nothing
    else is renamed or read. *)
Theorem ipc_claim_before_read (g : string) (isMain : bool) (k : MboxKind)
  (fs : IpcFs) (w : World) :
  let files := list_json_files fs g k in
  (forall f x, In f files -> f <> processing_name x)
  /\ NoDup files
  /\ exists chunks,
       Forall2 (claim_chunk g k) files chunks
       /\ fs_ops (fst (process_dir g isMain k fs w)) = (fs_ops fs ++ List.concat chunks)%list.
Proof.
  intros files.
  assert (Hspec : forall f, In f files ->
            ends_with ".json" f = true /\ is_Some (fs_files fs !! MboxPath g k f))
    by (intros f; apply list_json_files_spec).
  split; [|split].
  - intros f x Hin ->. destruct (Hspec _ Hin) as [Hj _].
    by rewrite processing_name_not_json in Hj.
  - apply list_json_files_NoDup.
  - destruct (process_files_chunks (handler_for k g isMain) g k files fs w
                (list_json_files_NoDup fs g k) Hspec) as (chunks & Hf2 & Hres & Hops).
    exists chunks. split; [done|].
    unfold process_dir. fold files.
    destruct (process_files (handler_for k g isMain) g k files fs w) as [[fs' w'] r].
    simpl in Hres, Hops. subst r. exact Hops.
Qed.

(* ------------------------------------------------------------------ *)
(** ** Commands of a non-main group that refer to another group *)

Lemma type_is_some (d : IpcData) (t s : string) :
  d_type d = Some (JStr t) -> type_is d s = String.eqb t s.
Proof. intros H. unfold type_is, js_is. by rewrite H. Qed.

Lemma logM_run (lvl : LogLevel) (msg : string) (w : World) :
  logM lvl msg w = (log_now lvl msg w, Ok tt).
Proof. reflexivity. Qed.

Lemma handler_foreign (g : string) (k : MboxKind) (w : World) (d : IpcData) :
  foreign_ref w g d = true ->
  handler_for k g false (JObj d) w =
    ((if blocked_logged k d then log_now LWarn (blocked_msg k d) w else w), Ok tt).
Proof.
  intros Hf. unfold foreign_ref in Hf.
  destruct (d_type d) as [[t| | | |]|] eqn:Ht;
    try (unfold type_is, js_is in Hf; rewrite Ht in Hf; discriminate).
  rewrite !(type_is_some d t) in Hf by done.
  unfold blocked_logged, blocked_msg, handler_for.
  rewrite !(type_is_some d t) by done.
  apply orb_true_iff in Hf as [Hf | E]; [apply orb_true_iff in Hf as [Hf | Hf]|].
  1, 2: apply andb_true_iff in Hf as [E Hj].
  all: apply String.eqb_eq in E; subst t.
  - destruct (d_chatJid d) as [c|] eqn:Hcj; [|discriminate].
    cbn [str_of_field] in Hj.
    destruct (js_to_string c) as [j|] eqn:Hsj; [|discriminate].
    destruct k; cbn [String.eqb Ascii.eqb Bool.eqb andb negb orb].
    + unfold processMessageIpc, fields_of, bindM at 1, retM at 1. cbn beta iota.
      rewrite Hcj, (type_is_some d "message") by done.
      destruct (d_text d) as [tx|];
        [|cbn [js_truthy_opt andb]; rewrite andb_false_r; reflexivity].
      cbn [js_truthy_opt String.eqb Ascii.eqb Bool.eqb andb].
      destruct (js_truthy c && js_truthy tx) eqn:Htr; [|reflexivity].
      rewrite (bindM_to_string c j) by exact Hsj.
      unfold bindM at 1, getsM at 1. cbn beta iota. unfold id.
      unfold owns_chat in Hj.
      destruct (w_groups w !! j) as [tg|]; cbn [negb orb] in Hj |- *.
      * apply negb_true_iff in Hj. rewrite Hj. apply logM_run.
      * apply logM_run.
    + unfold processTaskIpc, bindM at 1, fields_of, retM at 1. cbn beta iota.
      rewrite !(type_is_some d "message") by done. apply logM_run.
  - destruct (d_targetJid d) as [c|] eqn:Htj; [|discriminate].
    cbn [str_of_field] in Hj.
    destruct (js_to_string c) as [j|] eqn:Hsj; [|discriminate].
    destruct k; cbn [String.eqb Ascii.eqb Bool.eqb andb negb orb].
    + unfold processMessageIpc, fields_of, bindM at 1, retM at 1. cbn beta iota.
      rewrite (type_is_some d "schedule_task") by done.
      destruct (d_chatJid d), (d_text d); reflexivity.
    + unfold processTaskIpc, bindM at 1, fields_of, retM at 1. cbn beta iota.
      rewrite (type_is_some d "schedule_task") by done. cbn [String.eqb Ascii.eqb Bool.eqb].
      unfold schedule_task. rewrite Htj.
      destruct (d_prompt d) as [p|]; [|reflexivity].
      destruct (d_schedule_type d) as [st|];
        [|cbn [js_truthy_opt]; rewrite ?andb_false_r, ?andb_false_l; reflexivity].
      destruct (d_schedule_value d) as [sv|];
        [|cbn [js_truthy_opt]; rewrite ?andb_false_r, ?andb_false_l; reflexivity].
      cbn [js_truthy_opt].
      destruct (js_truthy p && js_truthy st && js_truthy sv && js_truthy c) eqn:Htr;
        [|reflexivity].
      rewrite (bindM_to_string c j) by exact Hsj.
      unfold bindM at 1, getsM at 1. cbn beta iota. unfold id.
      destruct (w_groups w !! j) as [tg|]; [|discriminate]. cbn [negb andb].
      apply negb_true_iff in Hj. rewrite Hj. apply logM_run.
  - destruct k; cbn [String.eqb Ascii.eqb Bool.eqb andb negb orb].
    + unfold processMessageIpc, fields_of, bindM at 1, retM at 1. cbn beta iota.
      rewrite (type_is_some d "register_group") by done.
      destruct (d_chatJid d), (d_text d); reflexivity.
    + unfold processTaskIpc, bindM at 1, fields_of, retM at 1. cbn beta iota.
      rewrite !(type_is_some d "register_group") by done. apply logM_run.
Qed.

(** Claim C1 (counterexample): a registration request that the non-main
    group [alice] writes into its [messages/] directory is deleted without
    any effect, and also without any log line: the world is returned
    unchanged, so the attempt is not logged. *)
Lemma register_in_messages_not_logged :
  foreign_ref world0 "alice" register_cmd = true
  /\ String.eqb "alice" (MAIN_GROUP_FOLDER (w_env world0)) = false
  /\ process_file (handler_for KMessages "alice" false) "alice" KMessages "reg.json"
       fs_register_in_messages world0
     = (fs_after_applied "alice" KMessages "reg.json" (FJson (JObj register_cmd))
          fs_register_in_messages, world0, Ok tt).
Proof.
  split; [vm_compute; reflexivity|]. split; [reflexivity|].
  apply process_file_applied; [vm_compute; reflexivity|reflexivity].
Qed.

(** Claim C1 (as amended): a command file of a non-main group [g] that
    refers to another group's resource (a message to a chat [g] does not
    own, a task for a chat registered to another folder, a group
    registration) is deleted, not moved to [errors/], and changes nothing
    but the log: no message is sent, no task, group or database row is
    written. The fields are JSON values of any type; the chat a command
    names is the [String()] form of its field, when it has one. One warning
    is logged when the handler reaches its authorization check
    ([blocked_logged], on the JS truthiness of the fields); a message
    without a truthy text, a task missing one of its four fields, and any
    command other than a message placed in [messages/] are dropped without
    a log line. *)
Theorem foreign_command_no_effect (g : string) (k : MboxKind) (file : string)
  (fs : IpcFs) (w : World) (d : IpcData)
  (Hm : String.eqb g (MAIN_GROUP_FOLDER (w_env w)) = false)
  (Hc : fs_files fs !! MboxPath g k file = Some (FJson (JObj d)))
  (Hf : foreign_ref w g d = true) :
  let out := process_file (handler_for k g (String.eqb g (MAIN_GROUP_FOLDER (w_env w))))
               g k file fs w in
  out = (fs_after_applied g k file (FJson (JObj d)) fs,
         (if blocked_logged k d then log_now LWarn (blocked_msg k d) w else w), Ok tt)
  /\ w_outbox (snd (fst out)) = w_outbox w
  /\ w_tasks (snd (fst out)) = w_tasks w
  /\ w_groups (snd (fst out)) = w_groups w
  /\ w_db (snd (fst out)) = w_db w.
Proof.
  intros out.
  assert (Ho : out = (fs_after_applied g k file (FJson (JObj d)) fs,
         (if blocked_logged k d then log_now LWarn (blocked_msg k d) w else w), Ok tt)).
  { unfold out. rewrite Hm. apply process_file_applied; [done|].
    by apply handler_foreign. }
  rewrite Ho. simpl. by destruct (blocked_logged k d).
Qed.

Lemma foreign_command_no_effect_witness :
  String.eqb "alice" (MAIN_GROUP_FOLDER (w_env world0)) = false
  /\ fs_files fs_foreign_task !! MboxPath "alice" KTasks "t.json"
       = Some (FJson (JObj foreign_task_cmd))
  /\ foreign_ref world0 "alice" foreign_task_cmd = true
  /\ w_tasks (snd (fst (process_file (handler_for KTasks "alice"
        (String.eqb "alice" (MAIN_GROUP_FOLDER (w_env world0))))
        "alice" KTasks "t.json" fs_foreign_task world0))) = w_tasks world0.
Proof.
  assert (H1 : String.eqb "alice" (MAIN_GROUP_FOLDER (w_env world0)) = false)
    by reflexivity.
  assert (H2 : fs_files fs_foreign_task !! MboxPath "alice" KTasks "t.json"
               = Some (FJson (JObj foreign_task_cmd))) by (vm_compute; reflexivity).
  assert (H3 : foreign_ref world0 "alice" foreign_task_cmd = true)
    by (vm_compute; reflexivity).
  split; [exact H1|]. split; [exact H2|]. split; [exact H3|].
  exact (proj1 (proj2 (proj2 (foreign_command_no_effect "alice" KTasks "t.json"
           fs_foreign_task world0 foreign_task_cmd H1 H2 H3)))).
Defined.

(** The handler reaches the check for that numeric text and logs the
    attempt. *)
Lemma numeric_text_blocked_logged :
  handler_for KMessages "alice" false (JObj numeric_text_cmd) world0
    = (log_now LWarn "Unauthorized IPC message attempt blocked" world0, Ok tt).
Proof. apply (handler_foreign "alice" KMessages world0 numeric_text_cmd). reflexivity. Qed.

(* ------------------------------------------------------------------ *)
(** ** Executor failures of message-triggered runs *)

(** [sendMessage] always records its attempt in the outbox and touches no
    cursor, message or executor state. *)
Lemma sendMessage_run (jid text : string) (w : World) :
  exists w', sendMessage jid text w = (w', Ok tt)
    /\ w_outbox w' = (w_outbox w ++ [(jid, text)])%list
    /\ w_last_agent_ts w' = w_last_agent_ts w
    /\ w_exec w' = w_exec w
    /\ w_msgs w' = w_msgs w
    /\ w_chats w' = w_chats w
    /\ w_db w' = w_db w.
Proof.
  unfold sendMessage, bindM, getsM, modifyM, logM, retM. simpl.
  destruct (sock_send (w_env w) (w_now w) jid text) as [oid|]; simpl.
  - destruct (truthy oid); simpl; eexists; repeat split.
  - eexists; repeat split.
Qed.

(** A failing executor call makes [runAgent] report the failure; the run is
    recorded and neither the outbox nor the cursors change. *)
Lemma runAgent_error (group : RegisteredGroup) (prompt chatJid : string) (w : World)
  (e : string) :
  exec_error (run_agent_for_group (w_env w) (g_folder group) prompt
                (w_sessions w !! g_folder group)) = Some e ->
  exists w', runAgent group prompt chatJid w = (w', Ok (RunError e))
    /\ w_outbox w' = w_outbox w
    /\ w_last_agent_ts w' = w_last_agent_ts w
    /\ w_exec w' = (w_exec w ++ [(g_folder group, prompt)])%list.
Proof.
  intros He.
  unfold runAgent, writeTasksSnapshot, writeGroupsSnapshot, bindM, getsM, modifyM,
    logM, retM, dbM. simpl.
  destruct (run_agent_for_group (w_env w) (g_folder group) prompt
              (w_sessions w !! g_folder group)) as [o|msg]; simpl in He |- *.
  - destruct (o_success o); [discriminate|]. injection He as <-.
    destruct (truthy (o_newSessionId o)); simpl; eexists; repeat split.
  - injection He as <-. eexists; repeat split.
Qed.

(** Claim C7: when a registered group has pending messages that pass the
    trigger check and the executor call fails (it throws, or returns a
    status other than success), [processGroupMessages] sends
    ["[Agent Error] " ++ error] to that group's own chat and moves the
    group's cursor [lastAgentTimestamp] to the timestamp of the last pending
    message; the executor was called once and the queue sees success. *)
Theorem agent_failure_notice_and_cursor (chatJid : string) (w : World)
  (group : RegisteredGroup) (msgs : list StoredMsg) (err : string)
  (Hg : w_groups w !! chatJid = Some group)
  (Hmsgs : getMessagesSince chatJid (default "" (w_last_agent_ts w !! chatJid))
             (ASSISTANT_NAME (w_env w)) w = msgs)
  (Hne : msgs <> [])
  (Htrig : trigger_skip (w_env w) (String.eqb (g_folder group) (MAIN_GROUP_FOLDER (w_env w)))
             group msgs = false)
  (Hfail : exec_error (run_agent_for_group (w_env w) (g_folder group) (build_prompt msgs)
                         (w_sessions w !! g_folder group)) = Some err) :
  let out := processGroupMessages chatJid w in
  snd out = Ok true
  /\ w_outbox (fst out) = (w_outbox w ++ [(chatJid, ("[Agent Error] " ++ err)%string)])%list
  /\ w_last_agent_ts (fst out) !! chatJid = Some (List.last (map m_timestamp msgs) "")
  /\ w_exec (fst out) = (w_exec w ++ [(g_folder group, build_prompt msgs)])%list.
Proof.
  intros out. destruct (processGroupMessages chatJid w) as [w' r] eqn:E.
  unfold out. clear out. simpl.
  unfold processGroupMessages in E.
  unfold bindM at 1, getsM at 1 in E. cbv beta iota in E. change (id w) with w in E.
  rewrite Hg in E. cbv zeta in E. rewrite Hmsgs in E.
  destruct msgs as [|m ms]; [congruence|]. cbv iota in E. rewrite Htrig in E.
  set (prompt := build_prompt (m :: ms)) in *.
  set (lastTs := List.last (map m_timestamp (m :: ms)) "") in *.
  unfold bindM at 1 in E. rewrite logM_run in E. cbv beta iota in E.
  destruct (runAgent_error group prompt chatJid (log_now LInfo "Processing messages" w) err
              Hfail) as (w1 & Hrun & Ho1 & Hc1 & He1).
  unfold bindM at 1 in E. rewrite Hrun in E. cbv beta iota in E.
  destruct (sendMessage_run chatJid ("[Agent Error] " ++ err) w1)
    as (w2 & Hs & Ho2 & Hc2 & He2 & _).
  unfold bindM at 1 in E. rewrite Hs in E. cbv beta iota in E.
  unfold bindM, set_cursor, modifyM, saveState, setRouterState, dbM, retM in E.
  simpl in E. injection E as <- <-. simpl.
  split; [done|]. split; [|split].
  - rewrite Ho2, Ho1. reflexivity.
  - apply lookup_insert_eq.
  - rewrite He2, He1. reflexivity.
Qed.

Lemma agent_failure_notice_and_cursor_witness :
  w_last_agent_ts (fst (processGroupMessages "alice-chat@g.us" world_triggered))
    !! "alice-chat@g.us" = Some "2025-10-09T08:05:00.000Z".
Proof.
  assert (Hg : w_groups world_triggered !! "alice-chat@g.us" = Some alice)
    by (vm_compute; reflexivity).
  assert (Hm : getMessagesSince "alice-chat@g.us"
                 (default "" (w_last_agent_ts world_triggered !! "alice-chat@g.us"))
                 (ASSISTANT_NAME (w_env world_triggered)) world_triggered
               = [msg_lunch; msg_triggered]) by (vm_compute; reflexivity).
  assert (Hne : [msg_lunch; msg_triggered] <> []) by discriminate.
  assert (Ht : trigger_skip (w_env world_triggered)
                 (String.eqb (g_folder alice) (MAIN_GROUP_FOLDER (w_env world_triggered)))
                 alice [msg_lunch; msg_triggered] = false) by (vm_compute; reflexivity).
  assert (Hf : exec_error (run_agent_for_group (w_env world_triggered) (g_folder alice)
                 (build_prompt [msg_lunch; msg_triggered])
                 (w_sessions world_triggered !! g_folder alice)) = Some "Agent timed out")
    by (vm_compute; reflexivity).
  exact (proj1 (proj2 (proj2 (agent_failure_notice_and_cursor "alice-chat@g.us"
           world_triggered alice [msg_lunch; msg_triggered] "Agent timed out"
           Hg Hm Hne Ht Hf)))).
Defined.

(* ------------------------------------------------------------------ *)
(** ** Pending messages without a trigger *)

Lemma existsb_all_false {A : Type} (f : A -> bool) (l : list A) :
  (forall x, In x l -> f x = false) -> existsb f l = false.
Proof.
  intros H. destruct (existsb f l) eqn:E; [|done].
  apply existsb_exists in E as (x & Hin & Hx). by rewrite H in Hx.
Qed.

(** Claim C10: for a non-main group whose [requiresTrigger] is not [false],
    when no pending message matches the trigger, [processGroupMessages]
    returns [true] with the world unchanged: the executor is not called and
    the cursor [lastAgentTimestamp] stays where it was. The next query for
    the group, after more messages have arrived, starts with the same
    pending messages. *)
Theorem untriggered_messages_stay_pending (chatJid : string) (w : World)
  (group : RegisteredGroup)
  (Hg : w_groups w !! chatJid = Some group)
  (Hnm : String.eqb (g_folder group) (MAIN_GROUP_FOLDER (w_env w)) = false)
  (Hrt : g_requiresTrigger group <> Some false)
  (Hnone : forall m, In m (getMessagesSince chatJid (default "" (w_last_agent_ts w !! chatJid))
                            (ASSISTANT_NAME (w_env w)) w) ->
           trigger_test (w_env w) (js_trim (m_content m)) = false) :
  processGroupMessages chatJid w = (w, Ok true)
  /\ forall newMsgs : list StoredMsg,
       let w' := set_msgs (w_msgs (fst (processGroupMessages chatJid w)) ++ newMsgs)
                   (fst (processGroupMessages chatJid w)) in
       exists rest,
         getMessagesSince chatJid (default "" (w_last_agent_ts w' !! chatJid))
           (ASSISTANT_NAME (w_env w')) w'
         = (getMessagesSince chatJid (default "" (w_last_agent_ts w !! chatJid))
              (ASSISTANT_NAME (w_env w)) w ++ rest)%list.
Proof.
  assert (Hrun : processGroupMessages chatJid w = (w, Ok true)).
  { unfold processGroupMessages, bindM, getsM. change (id w) with w.
    rewrite Hg. cbv zeta.
    destruct (getMessagesSince chatJid (default "" (w_last_agent_ts w !! chatJid))
                (ASSISTANT_NAME (w_env w)) w) as [|m ms] eqn:Hms; [reflexivity|].
    assert (Hs : trigger_skip (w_env w) (String.eqb (g_folder group)
                   (MAIN_GROUP_FOLDER (w_env w))) group (m :: ms) = true).
    { unfold trigger_skip. rewrite Hnm.
      rewrite existsb_all_false by exact Hnone.
      case_bool_decide; [contradiction|reflexivity]. }
    rewrite Hs. reflexivity. }
  split; [exact Hrun|].
  intros newMsgs w'. unfold w'. rewrite Hrun. simpl.
  unfold getMessagesSince. simpl. rewrite List.filter_app.
  eexists. reflexivity.
Qed.

Lemma untriggered_messages_stay_pending_witness :
  processGroupMessages "alice-chat@g.us" world0 = (world0, Ok true).
Proof.
  assert (Hg : w_groups world0 !! "alice-chat@g.us" = Some alice)
    by (vm_compute; reflexivity).
  assert (Hnm : String.eqb (g_folder alice) (MAIN_GROUP_FOLDER (w_env world0)) = false)
    by reflexivity.
  assert (Hrt : g_requiresTrigger alice <> Some false) by discriminate.
  assert (Hnone : forall m, In m (getMessagesSince "alice-chat@g.us"
                     (default "" (w_last_agent_ts world0 !! "alice-chat@g.us"))
                     (ASSISTANT_NAME (w_env world0)) world0) ->
                  trigger_test (w_env world0) (js_trim (m_content m)) = false).
  { intros m Hin.
    assert (Hq : getMessagesSince "alice-chat@g.us"
                   (default "" (w_last_agent_ts world0 !! "alice-chat@g.us"))
                   (ASSISTANT_NAME (w_env world0)) world0 = [msg_lunch])
      by (vm_compute; reflexivity).
    rewrite Hq in Hin. destruct Hin as [<-|[]]. vm_compute. reflexivity. }
  exact (proj1 (untriggered_messages_stay_pending "alice-chat@g.us" world0 alice
           Hg Hnm Hrt Hnone)).
Defined.

(** [String.prototype.trim] also removes an ideographic space (U+3000),
    so a message that starts with one still carries the trigger. *)
Lemma js_trim_ideographic_space :
  js_trim (String (Ascii.ascii_of_nat 227) (String (Ascii.ascii_of_nat 128)
    (String (Ascii.ascii_of_nat 128) "@Andy hi"))) = "@Andy hi".
Proof. reflexivity. Qed.

(* ------------------------------------------------------------------ *)
(** ** Echoes of the bot's own messages *)

(** Claim C9: a message that [sendMessage] hands to the socket and that
    comes back with id [id] has [id] recorded, and the record holds at
    every later instant of the next 60 s; an inbound event carrying a
    recorded id is skipped before any chat metadata or message row is
    stored, so it never reaches the message store the message loop and
    [processGroupMessages] read from. *)
Theorem own_messages_not_stored (jid text mid : string) (w : World)
  (Hsock : sock_send (w_env w) (w_now w) jid text = SockSent (Some mid))
  (Hid : mid <> "") :
  (forall t, t < w_now w + 60000 ->
     sent_id_recorded mid (set_now t (fst (sendMessage jid text w))) = true)
  /\ (forall (msg : WAMessage) (w2 : World),
        wa_id msg = Some mid -> sent_id_recorded mid w2 = true ->
        let w3 := fst (handleInbound msg w2) in
        w_msgs w3 = w_msgs w2 /\ w_chats w3 = w_chats w2 /\ w_db w3 = w_db w2).
Proof.
  split.
  - intros t Ht.
    unfold sendMessage, bindM, getsM, modifyM, logM, retM. simpl. rewrite Hsock.
    assert (Htr : truthy (Some mid) = true).
    { simpl. apply negb_true_iff, String.eqb_neq. exact Hid. }
    rewrite Htr. simpl. unfold sent_id_recorded. simpl.
    apply existsb_exists. exists (mid, w_now w + 60000). split.
    + apply in_or_app. right. left. reflexivity.
    + rewrite String.eqb_refl. simpl. by apply Z.ltb_lt.
  - intros msg w2 Hmid Hrec w3. unfold w3, handleInbound.
    destruct (wa_has_message msg); [|done]. simpl.
    destruct (wa_remoteJid msg) as [raw|]; [|done].
    destruct (String.eqb raw "" || String.eqb raw "status@broadcast"); [done|].
    unfold bindM, getsM, modifyM. change (id w2) with w2. rewrite Hmid.
    assert (Htr : truthy (Some mid) = true).
    { simpl. apply negb_true_iff, String.eqb_neq. exact Hid. }
    change (default "" (Some mid)) with mid. rewrite Htr, Hrec. done.
Qed.

Lemma own_messages_not_stored_witness :
  w_msgs (fst (handleInbound echo_msg world_after_reply)) = w_msgs world_after_reply.
Proof.
  assert (Hs : sock_send (w_env world0) (w_now world0) "alice-chat@g.us"
                 "Andy: table booked" = SockSent (Some "3EB0MSG")) by reflexivity.
  assert (Hid : "3EB0MSG" <> "") by discriminate.
  destruct (own_messages_not_stored "alice-chat@g.us" "Andy: table booked" "3EB0MSG"
              world0 Hs Hid) as [Hrec Hskip].
  assert (Ht : w_now world0 + 30000 < w_now world0 + 60000) by (vm_compute; reflexivity).
  exact (proj1 (Hskip echo_msg world_after_reply eq_refl
                  (Hrec (w_now world0 + 30000) Ht))).
Defined.

(* ------------------------------------------------------------------ *)
(** ** The per-group execution queue *)

Section QueueInvariant.
Import GroupQueue.

Lemma slot_insert (st : gmap string SlotStatus) (rc : gset string) (wt rn : list string)
  (mx : nat) (sd : bool) (t u : string) (s : SlotStatus) :
  slot (mkQueue (<[t := s]> st) rc wt rn mx sd) u
  = if String.eqb u t then s else slot (mkQueue st rc wt rn mx sd) u.
Proof.
  unfold slot. simpl. destruct (String.eqb_spec u t) as [->|Hne].
  - by rewrite lookup_insert_eq.
  - by rewrite lookup_insert_ne.
Qed.

Lemma slot_same (st : gmap string SlotStatus) (rc rc' : gset string)
  (wt wt' rn rn' : list string) (mx mx' : nat) (sd sd' : bool) (u : string) :
  slot (mkQueue st rc wt rn mx sd) u = slot (mkQueue st rc' wt' rn' mx' sd') u.
Proof. reflexivity. Qed.

Lemma dispatch_fuel_inv (n : nat) (q : Queue) :
  queue_inv q -> queue_inv (dispatch_fuel n q).
Proof.
  revert q. induction n as [|n IH]; intros q Hq; simpl; [done|].
  destruct (Nat.ltb (List.length (q_running q)) (q_max q)); [|done].
  destruct (q_waiting q) as [|t rest] eqn:Hw; [done|].
  apply IH. destruct q as [st rc wt rn mx sd]; simpl in *. subst wt.
  destruct Hq as (Hnr & Hnw & Hrun & Hque).
  assert (Htq : slot (mkQueue st rc (t :: rest) rn mx sd) t = Queued)
    by (apply Hque; left).
  assert (Htr : t ∉ rn).
  { intros Hin. apply Hrun in Hin. congruence. }
  apply NoDup_cons in Hnw as [Htrest Hnrest].
  split; [|split; [|split]]; simpl.
  - apply NoDup_app. split; [done|]. split; [|apply NoDup_singleton].
    intros x Hx Hx'. apply list_elem_of_singleton in Hx'. subst. contradiction.
  - done.
  - intros u. rewrite slot_insert, elem_of_app, list_elem_of_singleton.
    destruct (String.eqb_spec u t) as [->|Hne]; [tauto|].
    rewrite (slot_same _ _ rc _ (t :: rest) _ rn _ mx _ sd), Hrun. tauto.
  - intros u. rewrite slot_insert.
    destruct (String.eqb_spec u t) as [->|Hne]; [split; [discriminate|tauto]|].
    rewrite (slot_same _ _ rc _ (t :: rest) _ rn _ mx _ sd), Hque. simpl. rewrite elem_of_cons. tauto.
Qed.

Lemma dispatch_inv (q : Queue) : queue_inv q -> queue_inv (dispatch q).
Proof. apply dispatch_fuel_inv. Qed.

Lemma signal_inv (t : string) (q : Queue) : queue_inv q -> queue_inv (signal t q).
Proof.
  intros Hq. unfold signal. destruct (q_shutting_down q); [done|].
  destruct (slot q t) eqn:Hs; [|done|].
  - apply dispatch_inv. destruct q as [st rc wt rn mx sd]; simpl in *.
    destruct Hq as (Hnr & Hnw & Hrun & Hque).
    assert (Htw : t ∉ wt) by (intros Hin; apply Hque in Hin; congruence).
    assert (Htr : t ∉ rn) by (intros Hin; apply Hrun in Hin; congruence).
    split; [|split; [|split]]; simpl; [done| | |].
    + apply NoDup_app. split; [done|]. split; [|apply NoDup_singleton].
      intros x Hx Hx'. apply list_elem_of_singleton in Hx'. subst. contradiction.
    + intros u. rewrite slot_insert.
      destruct (String.eqb_spec u t) as [->|Hne]; [split; [discriminate|tauto]|].
      rewrite (slot_same _ _ rc _ wt _ rn _ mx _ sd), Hrun. tauto.
    + intros u. rewrite slot_insert, elem_of_app, list_elem_of_singleton.
      destruct (String.eqb_spec u t) as [->|Hne]; [tauto|].
      rewrite (slot_same _ _ rc _ wt _ rn _ mx _ sd), Hque. tauto.
  - destruct q as [st rc wt rn mx sd]; simpl in *. exact Hq.
Qed.

Lemma finish_inv (t : string) (c : Completion) (q : Queue) :
  queue_inv q -> t ∈ q_running q -> queue_inv (finish t c q).
Proof.
  intros Hq Ht. unfold finish. apply dispatch_inv.
  destruct q as [st rc wt rn mx sd]; simpl in *.
  destruct Hq as (Hnr & Hnw & Hrun & Hque).
  assert (Htw : t ∉ wt).
  { intros Hin. apply Hque in Hin. apply Hrun in Ht. congruence. }
  set (rn' := List.filter (fun u => negb (String.eqb u t)) rn).
  assert (Hrn' : forall u, u ∈ rn' <-> u ∈ rn /\ u <> t).
  { intros u. unfold rn'. rewrite !list_elem_of_In, filter_In, negb_true_iff,
      String.eqb_neq. tauto. }
  assert (Hnr' : NoDup rn').
  { unfold rn'. apply NoDup_ListNoDup, List.NoDup_filter, NoDup_ListNoDup. done. }
  destruct (bool_decide (t ∈ rc) || bool_decide (c = NotDrained)).
  - split; [exact Hnr'|]. split; [|split]; simpl.
    + apply NoDup_app. split; [done|]. split; [|apply NoDup_singleton].
      intros x Hx Hx'. apply list_elem_of_singleton in Hx'. subst. contradiction.
    + intros u. rewrite slot_insert, Hrn'.
      destruct (String.eqb_spec u t) as [->|Hne]; [split; [discriminate|tauto]|].
      rewrite (slot_same _ _ rc _ wt _ rn _ mx _ sd), Hrun. tauto.
    + intros u. rewrite slot_insert, elem_of_app, list_elem_of_singleton.
      destruct (String.eqb_spec u t) as [->|Hne]; [tauto|].
      rewrite (slot_same _ _ rc _ wt _ rn _ mx _ sd), Hque. simpl. tauto.
  - split; [exact Hnr'|]. split; [exact Hnw|]. split; simpl.
    + intros u. rewrite slot_insert, Hrn'.
      destruct (String.eqb_spec u t) as [->|Hne]; [split; [discriminate|tauto]|].
      rewrite (slot_same _ _ rc _ wt _ rn _ mx _ sd), Hrun. tauto.
    + intros u. rewrite slot_insert.
      destruct (String.eqb_spec u t) as [->|Hne]; [split; [discriminate|tauto]|].
      rewrite (slot_same _ _ rc _ wt _ rn _ mx _ sd), Hque. simpl. tauto.
Qed.

Lemma reachable_inv (max : nat) (q : Queue) : reachable max q -> queue_inv q.
Proof.
  unfold reachable. intros Hr.
  assert (Hi : queue_inv (init max)).
  { split; [constructor|]. split; [constructor|].
    split; intros t; unfold slot; simpl; rewrite lookup_empty; simpl;
      split; try discriminate; intros Hin; inversion Hin. }
  induction Hr as [x|x y z Hxy Hyz IH] in Hi |- *; [done|].
  apply IH. inversion Hxy; subst.
  - by apply signal_inv.
  - by apply finish_inv.
  - destruct x as [st rc wt rn mx sd]. exact Hi.
Qed.

Lemma NoDup_count_le_1 (l : list string) (t : string) :
  NoDup l -> (List.length (List.filter (fun u => String.eqb u t) l) <= 1)%nat.
Proof.
  induction l as [|a l IH]; intros Hnd; simpl; [lia|].
  apply NoDup_cons in Hnd as [Ha Hnd].
  destruct (String.eqb_spec a t) as [->|Hne]; simpl; [|by apply IH].
  assert (Hnil : List.filter (fun u => String.eqb u t) l = []).
  { clear IH Hnd. induction l as [|b l IHl]; simpl; [done|].
    destruct (String.eqb_spec b t) as [->|Hbt]; [exfalso; apply Ha; left|].
    apply IHl. intros Hin. apply Ha. by right. }
  rewrite Hnil. simpl. lia.
Qed.

End QueueInvariant.

Section QueueClaims.
Import GroupQueue.

Lemma count_not_in (l : list string) (t : string) :
  t ∉ l -> List.length (List.filter (fun u => String.eqb u t) l) = 0%nat.
Proof.
  induction l as [|b l IH]; intros Ht; simpl; [done|].
  destruct (String.eqb_spec b t) as [->|Hbt]; [exfalso; apply Ht; left|].
  apply IH. intros Hin. apply Ht. by right.
Qed.

(** Claim C3: in every reachable state of the queue, each tenant has at
    most one execution in flight, and a tenant in flight is not also
    waiting, so no second execution of it can start before the current one
    completes. Signals that arrive while the tenant runs only set its
    re-check bit: a second signal changes nothing more than the first, and
    neither adds a waiting or running entry; a signal to a queued tenant
    changes nothing. When the execution completes, the tenant has at most
    one follow-up: it is waiting or running at most once. *)
Theorem queue_one_running_per_tenant (max : nat) (q : Queue) (Hr : reachable max q) :
  (forall t, (running_count q t <= 1)%nat)
  /\ (forall t, slot q t = Running -> t ∉ q_waiting q)
  /\ (forall t, slot q t = Running ->
        signal t (signal t q) = signal t q
        /\ q_waiting (signal t q) = q_waiting q
        /\ q_running (signal t q) = q_running q)
  /\ (forall t, slot q t = Queued -> signal t q = q)
  /\ (forall t c, t ∈ q_running q ->
        (running_count (finish t c q) t
         + List.length (List.filter (fun u => String.eqb u t) (q_waiting (finish t c q)))
         <= 1)%nat).
Proof.
  pose proof (reachable_inv max q Hr) as Hq.
  destruct Hq as (Hnr & Hnw & Hrun & Hque).
  split; [|split; [|split; [|split]]].
  - intros t. apply NoDup_count_le_1, Hnr.
  - intros t Hs Hw. apply Hque in Hw. congruence.
  - intros t Hs. unfold signal.
    destruct (q_shutting_down q) eqn:Hsd; [simpl; rewrite ?Hsd; done|]. rewrite Hs.
    split; [|done]. simpl. rewrite ?Hsd.
    unfold slot at 1. simpl. fold (slot q t). rewrite Hs.
    f_equal. apply leibniz_equiv. set_solver.
  - intros t Hs. unfold signal. destruct (q_shutting_down q); [done|]. by rewrite Hs.
  - intros t c Ht.
    assert (Hf : queue_inv (finish t c q)).
    { apply (reachable_inv max). eapply rtc_r; [exact Hr|]. by constructor. }
    destruct Hf as (Hnr' & Hnw' & Hrun' & Hque').
    unfold running_count.
    destruct (decide (t ∈ q_running (finish t c q))) as [Hin|Hnin].
    + assert (Hnotw : t ∉ q_waiting (finish t c q)).
      { intros Hw. apply Hque' in Hw. apply Hrun' in Hin. congruence. }
      rewrite (count_not_in _ _ Hnotw). pose proof (NoDup_count_le_1 _ t Hnr'). lia.
    + rewrite (count_not_in _ _ Hnin). pose proof (NoDup_count_le_1 _ t Hnw'). lia.
Qed.

Lemma queue_one_running_per_tenant_witness :
  (running_count (signal "alice" (signal "alice" (init 2))) "alice" <= 1)%nat.
Proof.
  assert (Hr : reachable 2 (signal "alice" (signal "alice" (init 2)))).
  { eapply rtc_l; [apply QSignal|]. eapply rtc_l; [apply QSignal|]. apply rtc_refl. }
  exact (proj1 (queue_one_running_per_tenant 2 _ Hr) "alice").
Defined.

End QueueClaims.

(* ------------------------------------------------------------------ *)
(** ** The dashboard helpers *)

Section DashboardProps.
Import Dashboard.
Local Open Scope list_scope.

Lemma char_width_bounds (c : Z) : 1 <= char_width c <= 2.
Proof. unfold char_width. destruct (isWideChar c); lia. Qed.

Lemma displayWidth_app (a b : cstr) :
  displayWidth (a ++ b) = displayWidth a + displayWidth b.
Proof. induction a as [|c a IH]; simpl; lia. Qed.

Lemma displayWidth_nonneg (s : cstr) : 0 <= displayWidth s.
Proof.
  induction s as [|c s IH]; simpl; [lia|].
  pose proof (char_width_bounds c). lia.
Qed.

Lemma ansi_params_suffix (l r : cstr) : ansi_params l = Some r -> exists p, l = p ++ r.
Proof.
  revert r. induction l as [|c l IH]; intros r H; simpl in H; [discriminate|].
  destruct (c =? 109).
  - injection H as <-. by exists [c].
  - destruct (is_ansi_param c); [|discriminate].
    destruct (IH r H) as [p ->]. by exists (c :: p).
Qed.

Lemma ansi_at_suffix (l r : cstr) : ansi_at l = Some r -> exists p, l = p ++ r.
Proof.
  destruct l as [|c [|d l]]; simpl; try discriminate.
  destruct ((c =? 27) && (d =? 91)); [|discriminate].
  intros H. destruct (ansi_params_suffix l r H) as [p ->]. by exists (c :: d :: p).
Qed.

Lemma strip_fuel_width (n : nat) (l : cstr) :
  displayWidth (strip_fuel n l) <= displayWidth l.
Proof.
  revert l. induction n as [|n IH]; intros l; simpl; [lia|].
  destruct l as [|c r]; [simpl; lia|].
  destruct (ansi_at (c :: r)) as [rest|] eqn:Ha.
  - destruct (ansi_at_suffix _ _ Ha) as [p Hp]. rewrite Hp, displayWidth_app.
    pose proof (IH rest). pose proof (displayWidth_nonneg p). lia.
  - simpl. pose proof (IH r). lia.
Qed.

(** Stripping escape sequences never widens a string. *)
Lemma visibleLength_le (s : cstr) : visibleLength s <= displayWidth s.
Proof. apply strip_fuel_width. Qed.

Lemma truncate_scan_width (m : Z) (plain : cstr) (w : Z) :
  w <= m - 1 -> w + displayWidth (firstn (truncate_scan m w plain) plain) <= m - 1.
Proof.
  revert w. induction plain as [|c r IH]; intros w Hw; simpl; [lia|].
  destruct (m <? w + char_width c + 1) eqn:Hb; simpl; [lia|].
  apply Z.ltb_ge in Hb. specialize (IH (w + char_width c) ltac:(lia)). lia.
Qed.

Lemma firstn_width_mono (l : cstr) (a b : nat) :
  (a <= b)%nat -> displayWidth (firstn a l) <= displayWidth (firstn b l).
Proof.
  revert a b. induction l as [|c l IH]; intros a b Hab; destruct a, b; simpl; try lia.
  - pose proof (char_width_bounds c). pose proof (displayWidth_nonneg (firstn b l)). lia.
  - specialize (IH a b ltac:(lia)). lia.
Qed.

Lemma break_scan_spec (mw : Z) (l : cstr) : forall w bi ls,
  w <= mw -> ls <= bi ->
  let '(b, s) := break_scan mw w bi ls l in
  bi <= b <= bi + Z.of_nat (List.length l) /\ (s = ls \/ bi <= s) /\ s <= b
  /\ w + displayWidth (firstn (Z.to_nat (b - bi)) l) <= mw
  /\ (forall c r, l = c :: r -> w + char_width c <= mw -> bi < b).
Proof.
  induction l as [|c l IH]; intros w bi ls Hw Hls; simpl.
  - replace (bi - bi) with 0 by lia. simpl.
    split; [lia|]. split; [by left|]. split; [lia|]. split; [lia|]. discriminate.
  - destruct (mw <? w + char_width c) eqn:Hb.
    + apply Z.ltb_lt in Hb. replace (bi - bi) with 0 by lia. simpl.
      split; [lia|]. split; [by left|]. split; [lia|]. split; [lia|].
      intros c' r' [= -> ->]. lia.
    + apply Z.ltb_ge in Hb.
      specialize (IH (w + char_width c) (bi + 1) (if c =? 32 then bi else ls) Hb
                    ltac:(destruct (c =? 32); lia)).
      destruct (break_scan mw (w + char_width c) (bi + 1) (if c =? 32 then bi else ls) l)
        as [b s].
      destruct IH as (Hb1 & Hs1 & Hs2 & Hw1 & _).
      split; [lia|]. split.
      { destruct Hs1 as [Hs1|Hs1]; [|right; lia].
        destruct (c =? 32); subst; [right; lia|by left]. }
      split; [lia|]. split; [|intros; lia].
      replace (Z.to_nat (b - bi)) with (S (Z.to_nat (b - (bi + 1)))) by lia.
      simpl. lia.
Qed.

Lemma trimStart_length (s : cstr) : (List.length (trimStart s) <= List.length s)%nat.
Proof.
  induction s as [|c s IH]; simpl; [lia|]. destruct (is_js_ws c); simpl; lia.
Qed.

Lemma wrap_loop_fits (mw : Z) (fuel : nat) : 2 <= mw -> forall remaining lines,
  (List.length remaining < fuel)%nat ->
  Forall (fun l => visibleLength l <= mw) lines ->
  exists res, wrap_loop fuel mw remaining lines = Some res
    /\ Forall (fun l => visibleLength l <= mw) res.
Proof.
  intros Hmw. induction fuel as [|f IH]; intros rem lines Hlen Hl; [lia|].
  cbn [wrap_loop]. destruct (mw <? visibleLength rem) eqn:Hv.
  - apply Z.ltb_lt in Hv.
    destruct rem as [|c r].
    { unfold visibleLength, stripAnsi in Hv. simpl in Hv. lia. }
    pose proof (break_scan_spec mw (c :: r) 0 0 (-1) ltac:(lia) ltac:(lia)) as Hbs.
    destruct (break_scan mw 0 0 (-1) (c :: r)) as [b s].
    destruct Hbs as (Hb & Hs1 & Hs2 & Hw & Hprog).
    specialize (Hprog c r eq_refl ltac:(pose proof (char_width_bounds c); lia)).
    cbv beta iota.
    set (a := Z.to_nat (if 0 <? s then s else b)).
    assert (Ha : (1 <= a)%nat /\ (a <= Z.to_nat b)%nat).
    { unfold a. destruct (0 <? s) eqn:E; [apply Z.ltb_lt in E|]; lia. }
    apply IH.
    + pose proof (trimStart_length (skipn a (c :: r))).
      rewrite length_skipn in H. simpl in Hlen, H. lia.
    + apply Forall_app; split; [done|]. constructor; [|constructor].
      eapply Z.le_trans; [apply visibleLength_le|].
      eapply Z.le_trans; [apply (firstn_width_mono _ a (Z.to_nat b)); lia|].
      replace (b - 0) with b in Hw by lia. lia.
  - apply Z.ltb_ge in Hv. eexists; split; [reflexivity|].
    destruct rem; [done|]. apply Forall_app; split; [done|].
    constructor; [done|constructor].
Qed.

Lemma displayWidth_repeat_space (n : nat) : displayWidth (repeat 32 n) = Z.of_nat n.
Proof.
  induction n as [|n IH]; [reflexivity|]. cbn [repeat displayWidth]. rewrite IH.
  change (char_width 32) with 1. lia.
Qed.

(** [truncate] with a budget of at least one column always fits: the
    visible width of its result is at most [maxVisible]. The result is the
    input unchanged, or a prefix of the input stripped of its escape
    sequences followed by the ellipsis. *)
Theorem truncate_fits (str : cstr) (maxVisible : Z) (H : 1 <= maxVisible) :
  visibleLength (truncate str maxVisible) <= maxVisible
  /\ (truncate str maxVisible = str
      \/ exists p q, stripAnsi str = p ++ q /\ truncate str maxVisible = p ++ [ellipsis]).
Proof.
  unfold truncate. destruct (visibleLength str <=? maxVisible) eqn:Hv.
  - apply Z.leb_le in Hv. split; [done|by left].
  - split.
    + eapply Z.le_trans; [apply visibleLength_le|]. rewrite displayWidth_app.
      pose proof (truncate_scan_width maxVisible (stripAnsi str) 0 ltac:(lia)).
      change (displayWidth [ellipsis]) with 1. lia.
    + right. eexists _, _. split; [symmetry; apply firstn_skipn|reflexivity].
Qed.

Lemma truncate_fits_witness :
  1 <= 3 /\ visibleLength (truncate [65; 66; 67; 68; 69] 3) <= 3.
Proof.
  split; [lia|]. apply (truncate_fits [65; 66; 67; 68; 69] 3). lia.
Defined.

(** For a width of at least two columns the loop of [wrapText] ends within
    one iteration per code point of the text, and every line it returns has
    a visible width of at most [maxWidth]. *)
Theorem wrapText_lines_fit (text : cstr) (maxWidth : Z) (H : 2 <= maxWidth) :
  exists lines, wrapText (S (List.length text)) text maxWidth = Some lines
    /\ Forall (fun l => visibleLength l <= maxWidth) lines.
Proof.
  unfold wrapText. destruct (visibleLength text <=? maxWidth) eqn:Hv.
  - apply Z.leb_le in Hv. eexists; split; [reflexivity|]. by constructor.
  - apply wrap_loop_fits; [done|lia|constructor].
Qed.

Lemma wrapText_lines_fit_witness :
  2 <= 6 /\ exists lines,
    wrapText 16 [104; 101; 108; 108; 111; 32; 119; 111; 114; 108; 100; 32; 102; 111; 111] 6
      = Some lines /\ Forall (fun l => visibleLength l <= 6) lines.
Proof.
  split; [lia|].
  apply (wrapText_lines_fit
           [104; 101; 108; 108; 111; 32; 119; 111; 114; 108; 100; 32; 102; 111; 111] 6).
  lia.
Defined.

(** When the text starts with a non-blank code point wider than [maxWidth]
    (any code point once [maxWidth <= 0], a wide one at [maxWidth = 1]) and
    does not fit, the loop of [wrapText] breaks at offset 0 every time,
    pushes an empty line and keeps the same remainder: it never returns. *)
Theorem wrapText_never_returns (c : Z) (r : cstr) (maxWidth : Z)
  (Hws : is_js_ws c = false) (Hc : maxWidth < char_width c)
  (Hv : maxWidth < visibleLength (c :: r)) (fuel : nat) :
  wrapText fuel (c :: r) maxWidth = None.
Proof.
  unfold wrapText.
  replace (visibleLength (c :: r) <=? maxWidth) with false
    by (symmetry; apply Z.leb_gt; lia).
  generalize (@nil cstr) as lines.
  induction fuel as [|f IH]; intros lines; [reflexivity|].
  cbn [wrap_loop].
  replace (maxWidth <? visibleLength (c :: r)) with true
    by (symmetry; apply Z.ltb_lt; lia).
  cbn [break_scan].
  replace (maxWidth <? 0 + char_width c) with true
    by (symmetry; apply Z.ltb_lt; lia).
  change (Z.to_nat (if 0 <? -1 then -1 else 0)) with 0%nat. cbn [skipn firstn trimStart]. rewrite Hws.
  apply IH.
Qed.

Lemma wrapText_never_returns_witness :
  is_js_ws 0x4F60 = false /\ 1 < char_width 0x4F60
  /\ 1 < visibleLength [0x4F60; 0x597D] /\ wrapText 100 [0x4F60; 0x597D] 1 = None.
Proof.
  split; [reflexivity|]. split; [reflexivity|]. split; [reflexivity|].
  apply (wrapText_never_returns 0x4F60 [0x597D] 1); reflexivity.
Defined.

(** [padTag] pads a name to [TAG_INNER_WIDTH] columns plus the brackets, or
    just brackets a wider name; the padding is split evenly, the extra
    space going to the right. *)
Theorem padTag_width (assistantName name : cstr) :
  displayWidth (padTag assistantName name)
    = Z.max (TAG_INNER_WIDTH assistantName) (displayWidth name) + 2
  /\ exists l r, padTag assistantName name
                   = [91] ++ repeat 32 l ++ name ++ repeat 32 r ++ [93]
                 /\ (l <= r <= S l)%nat.
Proof.
  unfold padTag.
  set (inner := TAG_INNER_WIDTH assistantName). set (nw := displayWidth name).
  destruct (inner - nw <=? 0) eqn:Hp.
  - apply Z.leb_le in Hp. split.
    + rewrite !displayWidth_app. change (displayWidth [91]) with 1.
      change (displayWidth [93]) with 1. fold nw. lia.
    + exists 0%nat, 0%nat. split; [reflexivity|lia].
  - apply Z.leb_gt in Hp.
    set (q := (inner - nw) / 2).
    assert (Hq : inner - nw = 2 * q + (inner - nw) mod 2) by (apply Z.div_mod; lia).
    pose proof (Z.mod_pos_bound (inner - nw) 2 ltac:(lia)).
    split.
    + rewrite !displayWidth_app, !displayWidth_repeat_space.
      change (displayWidth [91]) with 1. change (displayWidth [93]) with 1. fold nw.
      lia.
    + exists (Z.to_nat q), (Z.to_nat (inner - nw - q)). split; [reflexivity|lia].
Qed.

Lemma push_lines_from_empty (fuel : nat) (width : Z) (ls : list cstr) : forall buf,
  push_lines fuel width ls buf = option_map (app buf) (push_lines fuel width ls []).
Proof.
  induction ls as [|l ls IH]; intros buf; simpl.
  - by rewrite app_nil_r.
  - destruct (has_visible l); [|apply IH].
    destruct (wrapText fuel l width) as [wr|]; [|reflexivity].
    rewrite (IH (buf ++ wr)), (IH wr).
    destruct (push_lines fuel width ls []); simpl; [by rewrite app_assoc|reflexivity].
Qed.

(** After [pushThinkingLine] returns, [thinkingBuffer] holds at most
    [MAX_THINKING_LINES] lines: the newest ones of the old buffer followed by
    [added], the lines the new text wraps to on its own (its non-blank
    lines, each wrapped to the width, in order). *)
Theorem pushThinkingLine_keeps_last_lines (fuel : nat) (columns : option Z)
  (line : cstr) (buf buf' : list cstr)
  (H : pushThinkingLine fuel true columns line buf = Some buf') :
  let width := (match columns with Some c => if c =? 0 then 80 else c | None => 80 end) - 6 in
  (List.length buf' <= MAX_THINKING_LINES)%nat
  /\ exists added, push_lines fuel width (split_nl line) [] = Some added
     /\ buf' = skipn (List.length (buf ++ added) - MAX_THINKING_LINES) (buf ++ added).
Proof.
  intros width. unfold pushThinkingLine, negb in H. fold width in H.
  rewrite push_lines_from_empty in H.
  destruct (push_lines fuel width (split_nl line) []) as [added|] eqn:Hp; [|discriminate].
  cbn [option_map] in H.
  destruct (MAX_THINKING_LINES <=? List.length (buf ++ added))%nat eqn:Hl;
    injection H as <-.
  - apply Nat.leb_le in Hl. split.
    + rewrite length_skipn. lia.
    + by exists added.
  - apply Nat.leb_gt in Hl. split; [lia|].
    exists added. split; [reflexivity|].
    replace (List.length (buf ++ added) - MAX_THINKING_LINES)%nat with 0%nat
      by lia. reflexivity.
Qed.

Lemma pushThinkingLine_keeps_last_lines_witness :
  pushThinkingLine 10 true None [65; 66] full_buffer = Some (repeat [120] 499 ++ [[65; 66]])
  /\ (List.length (repeat [120] 499 ++ [[65; 66]]) <= MAX_THINKING_LINES)%nat.
Proof.
  assert (Hp : pushThinkingLine 10 true None [65; 66] full_buffer
               = Some (repeat [120] 499 ++ [[65; 66]])) by (vm_compute; reflexivity).
  split; [exact Hp|].
  exact (proj1 (pushThinkingLine_keeps_last_lines 10 None [65; 66] full_buffer _ Hp)).
Defined.

End DashboardProps.

(* ------------------------------------------------------------------ *)
(** ** The prompt markup *)

Lemma count_char_app (a : ascii) (s t : string) :
  count_char a (s ++ t) = (count_char a s + count_char a t)%nat.
Proof. induction s as [|c s IH]; simpl; [reflexivity|]. rewrite IH. lia. Qed.

(** [escapeXml] leaves no [<], [>] or double quote in its output. *)
Theorem escapeXml_no_markup (s : string) :
  count_char "<" (escapeXml s) = 0%nat /\ count_char ">" (escapeXml s) = 0%nat
  /\ count_char dquote (escapeXml s) = 0%nat.
Proof.
  unfold escapeXml. induction (list_ascii_of_string s) as [|c l IH]; simpl; [lia|].
  rewrite !count_char_app. destruct IH as (H1 & H2 & H3).
  destruct (Ascii.eqb c "&") eqn:E1; [simpl; lia|].
  destruct (Ascii.eqb c "<") eqn:E2; [simpl; lia|].
  destruct (Ascii.eqb c ">") eqn:E3; [simpl; lia|].
  destruct (Ascii.eqb c dquote) eqn:E4; [simpl; lia|].
  simpl. rewrite E2, E3, E4. lia.
Qed.

Lemma message_line_lt (m : StoredMsg) :
  count_char "<" (m_timestamp m) = 0%nat -> count_char "<" (message_line m) = 2%nat.
Proof.
  intros Ht. unfold message_line.
  destruct (escapeXml_no_markup (m_sender_name m)) as [Hs _].
  destruct (escapeXml_no_markup (m_content m)) as [Hc _].
  repeat (first [rewrite count_char_app | progress simpl]).
  rewrite Hs, Hc, Ht. reflexivity.
Qed.

(** The prompt built for a batch contains no [<] beyond its tags, one
    [<messages>] pair and one [<message>] pair per message: sender names
    and message texts cannot open or close a tag. Timestamps are inserted
    unescaped, so they are assumed free of [<] (the store holds ISO
    strings). *)
Theorem build_prompt_tags_only (missed : list StoredMsg)
  (Hts : Forall (fun m => count_char "<" (m_timestamp m) = 0%nat) missed) :
  count_char "<" (build_prompt missed) = (2 + 2 * List.length missed)%nat.
Proof.
  unfold build_prompt. rewrite !count_char_app.
  assert (Hc : count_char "<" (String.concat newline (map message_line missed))
               = (2 * List.length missed)%nat).
  { induction Hts as [|m l Hm Hl IH]; [reflexivity|].
    destruct l as [|m' l].
    - cbn [map String.concat]. rewrite (message_line_lt m Hm). reflexivity.
    - change (String.concat newline (map message_line (m :: m' :: l)))
        with (message_line m ++ newline ++ String.concat newline (map message_line (m' :: l))).
      rewrite !count_char_app, IH, (message_line_lt m Hm). simpl. lia. }
  rewrite Hc. simpl. lia.
Qed.

Lemma build_prompt_tags_only_witness :
  Forall (fun m => count_char "<" (m_timestamp m) = 0%nat) [msg_lunch; msg_triggered]
  /\ count_char "<" (build_prompt [msg_lunch; msg_triggered]) = 6%nat.
Proof.
  assert (H : Forall (fun m => count_char "<" (m_timestamp m) = 0%nat) [msg_lunch; msg_triggered])
    by (repeat constructor).
  split; [exact H|]. exact (build_prompt_tags_only _ H).
Defined.

(* ------------------------------------------------------------------ *)
(** ** What an agent run exposes *)

Lemma filter_task_view (g : string) (l : list ScheduledTask) :
  List.filter (fun v => String.eqb (tv_groupFolder v) g) (map task_view l)
  = map task_view (List.filter (fun t => String.eqb (t_group_folder t) g) l).
Proof.
  induction l as [|t l IH]; simpl; [reflexivity|].
  destruct (String.eqb (t_group_folder t) g); simpl; by rewrite IH.
Qed.

(** Before calling the executor, [runAgent] writes the snapshots the agent
    reads: for the main group every task and every available group; for
    any other group only the views of its own tasks and an empty group
    list. Nothing after the snapshots rewrites them. *)
Theorem runAgent_snapshots (group : RegisteredGroup) (prompt chatJid : string) (w : World) :
  let w' := fst (runAgent group prompt chatJid w) in
  if String.eqb (g_folder group) (MAIN_GROUP_FOLDER (w_env w)) then
    w_snap_tasks w' = Some (map task_view (w_tasks w))
    /\ w_snap_groups w' = Some (getAvailableGroups w)
  else
    w_snap_tasks w' = Some (map task_view
                        (List.filter (fun t => String.eqb (t_group_folder t) (g_folder group))
                           (w_tasks w)))
    /\ w_snap_groups w' = Some [].
Proof.
  assert (Hw : w_snap_tasks (fst (runAgent group prompt chatJid w))
               = Some (tasks_snapshot (g_folder group)
                         (String.eqb (g_folder group) (MAIN_GROUP_FOLDER (w_env w)))
                         (map task_view (w_tasks w)))
             /\ w_snap_groups (fst (runAgent group prompt chatJid w))
               = Some (if String.eqb (g_folder group) (MAIN_GROUP_FOLDER (w_env w))
                       then getAvailableGroups w else [])).
  { unfold runAgent, writeTasksSnapshot, writeGroupsSnapshot, bindM, getsM, modifyM,
      logM, retM, dbM. simpl.
    destruct (run_agent_for_group (w_env w) (g_folder group) prompt
                (w_sessions w !! g_folder group)) as [o|msg]; simpl.
    - destruct (truthy (o_newSessionId o)); simpl;
        destruct (negb (o_success o)); simpl; split; reflexivity.
    - split; reflexivity. }
  destruct Hw as [Ht Hg]. cbv zeta. rewrite Ht, Hg. unfold tasks_snapshot.
  destruct (String.eqb (g_folder group) (MAIN_GROUP_FOLDER (w_env w))); [done|].
  by rewrite filter_task_view.
Qed.

(* ------------------------------------------------------------------ *)
(** ** Inbound messages and LID translation *)

(** The echo filter forgets the id it matched: the echo is dropped without
    storing anything, and the id is no longer recorded, so a later delivery
    with the same id is handled as a new message. *)
Theorem echo_skipped_once (msg : WAMessage) (w : World) (rawJid mid : string)
  (Hm : wa_has_message msg = true) (Hj : wa_remoteJid msg = Some rawJid)
  (Hj1 : rawJid <> "") (Hj2 : rawJid <> "status@broadcast")
  (Hid : wa_id msg = Some mid) (Hne : mid <> "")
  (Hrec : sent_id_recorded mid w = true) :
  let (w', r) := handleInbound msg w in
  r = Ok tt /\ sent_id_recorded mid w' = false
  /\ w_msgs w' = w_msgs w /\ w_chats w' = w_chats w /\ w_db w' = w_db w.
Proof.
  unfold handleInbound. rewrite Hm, Hj. cbn [negb].
  rewrite (proj2 (String.eqb_neq _ _) Hj1), (proj2 (String.eqb_neq _ _) Hj2). cbn [orb].
  unfold bindM, getsM. change (id w) with w. cbv zeta.
  rewrite Hid, (truthy_some mid Hne). change (default "" (Some mid)) with mid. cbn [andb].
  rewrite Hrec. unfold modifyM. cbn [fst snd].
  split; [reflexivity|]. split; [|repeat split].
  apply not_true_iff_false. intros Hex.
  unfold sent_id_recorded in Hex. apply existsb_exists in Hex as [[i e] [Hin Hi]].
  simpl in Hin. apply filter_In in Hin as [_ Hn].
  apply andb_true_iff in Hi as [Hi _]. rewrite Hi in Hn. discriminate.
Qed.

Lemma echo_skipped_once_witness :
  wa_has_message echo_msg = true /\ wa_remoteJid echo_msg = Some "alice-chat@g.us"
  /\ "alice-chat@g.us" <> "" /\ "alice-chat@g.us" <> "status@broadcast"
  /\ wa_id echo_msg = Some "3EB0MSG" /\ "3EB0MSG" <> ""
  /\ sent_id_recorded "3EB0MSG" world_after_reply = true
  /\ sent_id_recorded "3EB0MSG" (fst (handleInbound echo_msg world_after_reply)) = false.
Proof.
  assert (H1 : wa_has_message echo_msg = true) by reflexivity.
  assert (H2 : wa_remoteJid echo_msg = Some "alice-chat@g.us") by reflexivity.
  assert (H3 : "alice-chat@g.us" <> "") by discriminate.
  assert (H4 : "alice-chat@g.us" <> "status@broadcast") by discriminate.
  assert (H5 : wa_id echo_msg = Some "3EB0MSG") by reflexivity.
  assert (H6 : "3EB0MSG" <> "") by discriminate.
  assert (H7 : sent_id_recorded "3EB0MSG" world_after_reply = true) by (vm_compute; reflexivity).
  do 7 (split; [assumption|]).
  pose proof (echo_skipped_once echo_msg world_after_reply _ _ H1 H2 H3 H4 H5 H6 H7) as Hs.
  destruct (handleInbound echo_msg world_after_reply) as [w' r].
  exact (proj1 (proj2 Hs)).
Defined.

(** A message from a chat that is not registered is recorded for group
    discovery only: the chat row carries the message time, no message row is
    stored. *)
Theorem unregistered_chat_metadata_only (msg : WAMessage) (w : World)
  (rawJid : string) (t : Z)
  (Hm : wa_has_message msg = true) (Hj : wa_remoteJid msg = Some rawJid)
  (Hj1 : rawJid <> "") (Hj2 : rawJid <> "status@broadcast")
  (Hecho : truthy (wa_id msg) && sent_id_recorded (default "" (wa_id msg)) w = false)
  (Ht : time_clip (wa_seconds msg * 1000) = Some t)
  (Hreg : w_groups w !! translate_jid (w_env w) rawJid = None) :
  let (w', r) := handleInbound msg w in
  r = Ok tt /\ w_msgs w' = w_msgs w
  /\ exists c, In c (w_chats w') /\ c_jid c = translate_jid (w_env w) rawJid
               /\ c_last_message_time c = iso_of_ms (w_env w) t.
Proof.
  unfold handleInbound. rewrite Hm, Hj. cbn [negb].
  rewrite (proj2 (String.eqb_neq _ _) Hj1), (proj2 (String.eqb_neq _ _) Hj2). cbn [orb].
  unfold bindM, getsM. cbv zeta. change (id w) with w. rewrite Hecho, Ht.
  unfold toISOString, retM, storeChatMetadata, bindM, dbM, modifyM. cbn [fst snd].
  rewrite Hreg. cbn.
  set (jid := translate_jid (w_env w) rawJid). set (ts := iso_of_ms (w_env w) t).
  split; [reflexivity|]. split; [reflexivity|].
  destruct (existsb (fun c => String.eqb (c_jid c) jid) (w_chats w)) eqn:Hex.
  - apply existsb_exists in Hex as [c [Hin Hc]]. apply String.eqb_eq in Hc.
    exists (mkChat jid (c_name c) ts). split; [|split; reflexivity].
    apply in_map_iff. exists c. split; [|done]. by rewrite Hc, String.eqb_refl.
  - exists (mkChat jid jid ts). split; [|split; reflexivity].
    apply in_or_app. right. by left.
Qed.

Lemma unregistered_chat_metadata_only_witness :
  (wa_has_message stranger_msg = true /\ wa_remoteJid stranger_msg = Some "stranger@g.us"
   /\ "stranger@g.us" <> "" /\ "stranger@g.us" <> "status@broadcast"
   /\ truthy (wa_id stranger_msg)
        && sent_id_recorded (default "" (wa_id stranger_msg)) world0 = false
   /\ time_clip (wa_seconds stranger_msg * 1000) = Some 1760000100000
   /\ w_groups world0 !! translate_jid (w_env world0) "stranger@g.us" = None)
  /\ w_msgs (fst (handleInbound stranger_msg world0)) = w_msgs world0.
Proof.
  assert (H1 : wa_has_message stranger_msg = true) by reflexivity.
  assert (H2 : wa_remoteJid stranger_msg = Some "stranger@g.us") by reflexivity.
  assert (H3 : "stranger@g.us" <> "") by discriminate.
  assert (H4 : "stranger@g.us" <> "status@broadcast") by discriminate.
  assert (H5 : truthy (wa_id stranger_msg)
                 && sent_id_recorded (default "" (wa_id stranger_msg)) world0 = false)
    by reflexivity.
  assert (H6 : time_clip (wa_seconds stranger_msg * 1000) = Some 1760000100000)
    by (vm_compute; reflexivity).
  assert (H7 : w_groups world0 !! translate_jid (w_env world0) "stranger@g.us" = None)
    by (vm_compute; reflexivity).
  split; [tauto|].
  pose proof (unregistered_chat_metadata_only stranger_msg world0 _ _
                H1 H2 H3 H4 H5 H6 H7) as Hs.
  destruct (handleInbound stranger_msg world0) as [w' r].
  exact (proj1 (proj2 Hs)).
Defined.

Lemma handleInbound_bad_time (msg : WAMessage) (w : World) (rawJid : string)
  (Hm : wa_has_message msg = true) (Hj : wa_remoteJid msg = Some rawJid)
  (Hj1 : rawJid <> "") (Hj2 : rawJid <> "status@broadcast")
  (Hecho : truthy (wa_id msg) && sent_id_recorded (default "" (wa_id msg)) w = false)
  (Ht : time_clip (wa_seconds msg * 1000) = None) :
  exists e, handleInbound msg w = (w, Exn e).
Proof.
  unfold handleInbound. rewrite Hm, Hj. cbn [negb].
  rewrite (proj2 (String.eqb_neq _ _) Hj1), (proj2 (String.eqb_neq _ _) Hj2). cbn [orb].
  unfold bindM, getsM. cbv zeta. change (id w) with w. rewrite Hecho, Ht.
  by eexists.
Qed.

Lemma handleMessages_app (pre post : list WAMessage) (w w1 : World)
  (Hpre : handleMessages pre w = (w1, Ok tt)) :
  handleMessages (pre ++ post) w = handleMessages post w1.
Proof.
  revert w Hpre. induction pre as [|m pre IH]; intros w Hpre; simpl in *.
  - by injection Hpre as <-.
  - unfold bindM in *. destruct (handleInbound m w) as [w0 [u|e]]; [|discriminate].
    by apply IH.
Qed.

(** A message whose timestamp [new Date(...)] cannot represent makes
    [toISOString] throw inside the listener, wherever it stands in the
    event: the messages before it are handled, the [.catch] counts the
    error and logs it (and the fatal line once the count reaches
    [MAX_MESSAGE_ERRORS]), and neither that message nor any later message
    of the event is stored. *)
Theorem upsert_bad_timestamp_drops_rest (n : Z) (pre : list WAMessage) (bad : WAMessage)
  (rest : list WAMessage) (w w1 : World) (rawJid : string)
  (Hpre : handleMessages pre w = (w1, Ok tt))
  (Hm : wa_has_message bad = true) (Hj : wa_remoteJid bad = Some rawJid)
  (Hj1 : rawJid <> "") (Hj2 : rawJid <> "status@broadcast")
  (Hecho : truthy (wa_id bad) && sent_id_recorded (default "" (wa_id bad)) w1 = false)
  (Ht : time_clip (wa_seconds bad * 1000) = None) :
  let w2 := log_now LError "Error in messages.upsert handler" w1 in
  handleUpsert n (pre ++ bad :: rest) w
  = (if MAX_MESSAGE_ERRORS <=? n + 1
     then (log_now LError "Too many message handler errors, shutting down" w2,
           Ok (n + 1, true))
     else (w2, Ok (n + 1, false)))
  /\ w_msgs (fst (handleUpsert n (pre ++ bad :: rest) w)) = w_msgs w1
  /\ w_chats (fst (handleUpsert n (pre ++ bad :: rest) w)) = w_chats w1
  /\ w_db (fst (handleUpsert n (pre ++ bad :: rest) w)) = w_db w1.
Proof.
  intros w2.
  destruct (handleInbound_bad_time bad w1 rawJid Hm Hj Hj1 Hj2 Hecho Ht) as [e He].
  assert (Hu : handleUpsert n (pre ++ bad :: rest) w
    = (if MAX_MESSAGE_ERRORS <=? n + 1
       then (log_now LError "Too many message handler errors, shutting down" w2,
             Ok (n + 1, true))
       else (w2, Ok (n + 1, false)))).
  { unfold handleUpsert. rewrite (handleMessages_app pre (bad :: rest) w w1 Hpre).
    cbn [handleMessages]. unfold bindM at 1. rewrite He. reflexivity. }
  rewrite Hu. destruct (MAX_MESSAGE_ERRORS <=? n + 1); repeat split.
Qed.

(** A stranger's message, then one dated beyond the [Date] range, then one
    more: the first is recorded, the rest of the event is dropped. *)
Lemma upsert_bad_timestamp_drops_rest_witness :
  let w1 := fst (handleMessages [stranger_msg] world0) in
  (handleMessages [stranger_msg] world0 = (w1, Ok tt)
   /\ wa_has_message far_future_msg = true
   /\ wa_remoteJid far_future_msg = Some "alice-chat@g.us"
   /\ "alice-chat@g.us" <> "" /\ "alice-chat@g.us" <> "status@broadcast"
   /\ truthy (wa_id far_future_msg)
        && sent_id_recorded (default "" (wa_id far_future_msg)) w1 = false
   /\ time_clip (wa_seconds far_future_msg * 1000) = None)
  /\ w_chats (fst (handleUpsert 0 [stranger_msg; far_future_msg; stranger_msg] world0))
     = w_chats w1
  /\ List.length (w_chats w1) = S (List.length (w_chats world0)).
Proof.
  intros w1.
  assert (H0 : handleMessages [stranger_msg] world0 = (w1, Ok tt)) by reflexivity.
  assert (H1 : wa_has_message far_future_msg = true) by reflexivity.
  assert (H2 : wa_remoteJid far_future_msg = Some "alice-chat@g.us") by reflexivity.
  assert (H3 : "alice-chat@g.us" <> "") by discriminate.
  assert (H4 : "alice-chat@g.us" <> "status@broadcast") by discriminate.
  assert (H5 : truthy (wa_id far_future_msg)
                 && sent_id_recorded (default "" (wa_id far_future_msg)) w1 = false)
    by reflexivity.
  assert (H6 : time_clip (wa_seconds far_future_msg * 1000) = None)
    by (vm_compute; reflexivity).
  split; [tauto|]. split.
  - exact (proj1 (proj2 (proj2 (upsert_bad_timestamp_drops_rest 0 [stranger_msg]
             far_future_msg [stranger_msg] world0 w1 _ H0 H1 H2 H3 H4 H5 H6)))).
  - reflexivity.
Defined.

(** Once [translateJid] has translated a LID JID, the phone JID is cached
    under the LID user: every later translation of a LID JID with the same
    user part (any device suffix) returns it without asking the signal
    repository, whatever that would answer, and leaves the cache as is. *)
Theorem translateJid_cache_sticks (getPN getPN' : string -> option string)
  (normalize normalize' : string -> string) (cache : gmap string string)
  (jid jid' : string)
  (Hjid' : ends_with "@lid" jid' = true) (Huser : lid_user jid' = lid_user jid)
  (Hres : snd (translateJid getPN normalize cache jid) <> jid) :
  translateJid getPN' normalize' (fst (translateJid getPN normalize cache jid)) jid'
  = translateJid getPN normalize cache jid.
Proof.
  destruct (translateJid getPN normalize cache jid) as [c1 r1] eqn:E.
  cbn [fst snd] in *. unfold translateJid in E.
  destruct (ends_with "@lid" jid) eqn:Hl; cbn [negb] in E; [|by injection E as <- <-].
  destruct (truthy (cache !! lid_user jid)) eqn:Hc.
  - injection E as <- <-. unfold translateJid. rewrite Hjid', Huser, Hc. reflexivity.
  - destruct (getPN jid) as [pn|]; [|by injection E as <- <-].
    destruct (truthy (Some pn)); [|by injection E as <- <-].
    destruct (truthy (Some (normalize pn))) eqn:Hn; [|by injection E as <- <-].
    injection E as <- <-.
    unfold translateJid. rewrite Hjid', Huser, lookup_insert_eq, Hn. reflexivity.
Qed.

Lemma translateJid_cache_sticks_witness :
  ends_with "@lid" "4917:2@lid" = true /\ lid_user "4917:2@lid" = lid_user "4917@lid"
  /\ snd (translateJid (fun _ => Some "4917:0@s.whatsapp.net")
            (fun _ => "4917@s.whatsapp.net") ∅ "4917@lid") <> "4917@lid"
  /\ translateJid (fun _ => None) (fun s => s)
       (fst (translateJid (fun _ => Some "4917:0@s.whatsapp.net")
               (fun _ => "4917@s.whatsapp.net") ∅ "4917@lid")) "4917:2@lid"
     = translateJid (fun _ => Some "4917:0@s.whatsapp.net")
         (fun _ => "4917@s.whatsapp.net") ∅ "4917@lid".
Proof.
  assert (H1 : ends_with "@lid" "4917:2@lid" = true) by reflexivity.
  assert (H2 : lid_user "4917:2@lid" = lid_user "4917@lid") by reflexivity.
  assert (H3 : snd (translateJid (fun _ => Some "4917:0@s.whatsapp.net")
                      (fun _ => "4917@s.whatsapp.net") ∅ "4917@lid") <> "4917@lid")
    by (vm_compute; discriminate).
  split; [exact H1|]. split; [exact H2|]. split; [exact H3|].
  exact (translateJid_cache_sticks _ (fun _ => None) _ (fun s => s) ∅ _ _ H1 H2 H3).
Defined.

(* ------------------------------------------------------------------ *)
(** ** The registry and a non-main group's IPC directories *)

Lemma keeps_bind {A B} (m : M A) (k : A -> M B) :
  keeps_groups m -> (forall a, keeps_groups (k a)) -> keeps_groups (bindM m k).
Proof.
  intros Hm Hk w. unfold bindM. specialize (Hm w).
  destruct (m w) as [w1 [a|e]]; simpl in *; [by rewrite Hk|done].
Qed.

Lemma keeps_ret {A} (a : A) : keeps_groups (retM a).
Proof. by intros w. Qed.

Lemma keeps_throw {A} (e : string) : keeps_groups (@throwM A e).
Proof. by intros w. Qed.

Lemma keeps_gets {A} (f : World -> A) : keeps_groups (getsM f).
Proof. by intros w. Qed.

Lemma keeps_log (lvl : LogLevel) (msg : string) : keeps_groups (logM lvl msg).
Proof. by intros w. Qed.

Lemma keeps_modifyM (f : World -> World) :
  (forall w, w_groups (f w) = w_groups w) -> keeps_groups (modifyM f).
Proof. intros Hf w. apply Hf. Qed.

Lemma keeps_db (c : DbCall) : keeps_groups (dbM c).
Proof. by intros w. Qed.

Lemma keeps_createTask (t : ScheduledTask) : keeps_groups (createTask t).
Proof. by intros w. Qed.

Lemma keeps_updateTaskStatus (i st : string) : keeps_groups (updateTaskStatus i st).
Proof. by intros w. Qed.

Lemma keeps_deleteTask (i : string) : keeps_groups (deleteTask i).
Proof. by intros w. Qed.

Lemma keeps_getTaskById (i : string) : keeps_groups (getTaskById i).
Proof. by intros w. Qed.

Lemma keeps_sendMessage (jid text : string) : keeps_groups (sendMessage jid text).
Proof.
  intros w. unfold sendMessage, bindM, getsM, modifyM, logM, retM. simpl.
  destruct (sock_send (w_env w) (w_now w) jid text) as [oid|]; simpl; [|done].
  by destruct (truthy oid).
Qed.

Lemma keeps_toISOString (t : option Z) : keeps_groups (toISOString t).
Proof. intros w. by destruct t. Qed.

Lemma keeps_fields_of (v : JValue) : keeps_groups (fields_of v).
Proof. intros w. by destruct v. Qed.

Lemma keeps_to_string_M (v : JSVal) : keeps_groups (to_string_M v).
Proof. intros w. unfold to_string_M. by destruct (js_to_string v). Qed.

Lemma keeps_db_bind (v : JSVal) : keeps_groups (db_bind v).
Proof.
  intros w. unfold db_bind, bindM, getsM. cbn.
  destruct v; try reflexivity; by destruct (db_text _ _).
Qed.

Create HintDb keeps.
#[local] Hint Resolve keeps_to_string_M keeps_db_bind keeps_ret keeps_throw keeps_gets keeps_log keeps_db keeps_createTask
  keeps_updateTaskStatus keeps_deleteTask keeps_getTaskById keeps_sendMessage
  keeps_toISOString keeps_fields_of : keeps.

(** Split a computation into its steps and close each with a known one. *)
Ltac keeps_steps :=
  repeat first
    [ progress (cbv zeta)
    | apply keeps_bind; [| intros ?]
    | solve [auto with keeps]
    | apply keeps_modifyM; intros; reflexivity
    | case_match ].

Lemma keeps_compute_next_run (st sv : JSVal) : keeps_groups (compute_next_run st sv).
Proof. unfold compute_next_run. keeps_steps. Qed.

Lemma keeps_schedule_task (d : IpcData) (g : string) (isMain : bool) :
  keeps_groups (schedule_task d g isMain).
Proof.
  unfold schedule_task. keeps_steps; auto using keeps_compute_next_run with keeps.
Qed.

Lemma keeps_task_op (d : IpcData) (g : string) (isMain : bool)
  (apply : string -> M unit) (ok bad : string) :
  (forall i, keeps_groups (apply i)) -> keeps_groups (task_op d g isMain apply ok bad).
Proof. intros Ha. unfold task_op. keeps_steps; auto. Qed.

Lemma keeps_processTaskIpc_non_main (d : IpcData) (g : string) :
  keeps_groups (processTaskIpc d g false).
Proof.
  unfold processTaskIpc. cbn [negb].
  repeat (case_match; try apply keeps_schedule_task;
          try (apply keeps_task_op; auto with keeps)); auto with keeps.
Qed.

Lemma keeps_processMessageIpc (v : JValue) (g : string) (isMain : bool) :
  keeps_groups (processMessageIpc v g isMain).
Proof. unfold processMessageIpc. keeps_steps. Qed.

Lemma keeps_handler_non_main (k : MboxKind) (g : string) (v : JValue) :
  keeps_groups (handler_for k g false v).
Proof.
  destruct k; simpl; [apply keeps_processMessageIpc|].
  apply keeps_bind; [apply keeps_fields_of|]. intros d. apply keeps_processTaskIpc_non_main.
Qed.

Lemma ipc_file_error_keeps (g : string) (k : MboxKind) (file : string)
  (fs : IpcFs) (w : World) :
  w_groups (snd (fst (ipc_file_error g k file fs w))) = w_groups w.
Proof. unfold ipc_file_error. by repeat case_match. Qed.

Lemma process_file_keeps (h : JValue -> M unit) (g : string) (k : MboxKind)
  (file : string) (fs : IpcFs) (w : World) :
  (forall v, keeps_groups (h v)) ->
  w_groups (snd (fst (process_file h g k file fs w))) = w_groups w.
Proof.
  intros Hh. unfold process_file.
  destruct (fs_rename _ _ fs) as [fs1|]; [|apply ipc_file_error_keeps].
  destruct (fs_read _ fs1) as [[fs2 c]|]; [|apply ipc_file_error_keeps].
  destruct (json_parse c w) as [w1 r1] eqn:Ej.
  pose proof (json_parse_world c w) as Hj. rewrite Ej in Hj. simpl in Hj. subst w1.
  destruct r1 as [v|e]; [|apply ipc_file_error_keeps].
  destruct (h v w) as [w2 r2] eqn:Eh.
  pose proof (Hh v w) as Hk. rewrite Eh in Hk. simpl in Hk.
  destruct r2 as [u|e].
  - destruct (fs_unlink _ fs2); [done|]. by rewrite ipc_file_error_keeps.
  - by rewrite ipc_file_error_keeps.
Qed.

Lemma process_files_keeps (h : JValue -> M unit) (g : string) (k : MboxKind)
  (files : list string) : forall (fs : IpcFs) (w : World),
  (forall v, keeps_groups (h v)) ->
  w_groups (snd (fst (process_files h g k files fs w))) = w_groups w.
Proof.
  induction files as [|f rest IH]; intros fs w Hh; [done|]. simpl.
  pose proof (process_file_keeps h g k f fs w Hh) as Hf.
  destruct (process_file h g k f fs w) as [[fs' w'] [u|e]]; simpl in Hf |- *.
  - by rewrite IH.
  - done.
Qed.

(** A non-main group's IPC directories never change the registry: whatever
    files its [messages/] or [tasks/] directory holds, processing it leaves
    [registeredGroups] as it was (only the main group can register a
    group). *)
Theorem non_main_ipc_keeps_registry (g : string) (k : MboxKind) (fs : IpcFs) (w : World) :
  w_groups (snd (process_dir g false k fs w)) = w_groups w.
Proof.
  unfold process_dir.
  pose proof (process_files_keeps (handler_for k g false) g k (list_json_files fs g k) fs w
                (keeps_handler_non_main k g)) as Hk.
  destruct (process_files _ _ _ _ fs w) as [[fs' w'] [u|e]]; simpl in Hk |- *; done.
Qed.

(** A [register_group] command of the main group with all four fields
    registers exactly that JID, replacing any earlier entry, with
    [added_at] the current time and no [requiresTrigger] flag (so the new
    group answers only to the trigger); every other JID keeps its entry. *)
Theorem ipc_register_group_entry (d : IpcData) (g jid name folder trigger : string)
  (w : World)
  (Hty : d_type d = Some (JStr "register_group"))
  (Hjid : d_jid d = Some (JStr jid)) (Hname : d_name d = Some (JStr name))
  (Hfolder : d_folder d = Some (JStr folder)) (Htrig : d_trigger d = Some (JStr trigger))
  (Hne : jid <> "" /\ name <> "" /\ folder <> "" /\ trigger <> "") :
  let groups' := w_groups (fst (processTaskIpc d g true w)) in
  groups' !! jid = Some (mkGroup name folder trigger (w_now w) None)
  /\ forall j, j <> jid -> groups' !! j = w_groups w !! j.
Proof.
  destruct Hne as (H1 & H2 & H3 & H4).
  unfold processTaskIpc, type_is, js_is. rewrite Hty. cbn [String.eqb negb].
  rewrite Hjid, Hname, Hfolder, Htrig, (js_truthy_str _ H1), (js_truthy_str _ H2),
    (js_truthy_str _ H3), (js_truthy_str _ H4). cbn [andb].
  unfold to_string_M, registerGroup, db_bind, bindM, getsM, modifyM, dbM, logM. cbn.
  split; [apply lookup_insert_eq|]. intros j Hj. by apply lookup_insert_ne.
Qed.

Lemma ipc_register_group_entry_witness :
  (d_type register_cmd = Some (JStr "register_group")
   /\ d_jid register_cmd = Some (JStr "evil-chat@g.us")
   /\ d_name register_cmd = Some (JStr "Evil")
   /\ d_folder register_cmd = Some (JStr "evil") /\ d_trigger register_cmd = Some (JStr "@Evil")
   /\ ("evil-chat@g.us" <> "" /\ "Evil" <> "" /\ "evil" <> "" /\ "@Evil" <> ""))
  /\ w_groups (fst (processTaskIpc register_cmd "main" true world0)) !! "evil-chat@g.us"
     = Some (mkGroup "Evil" "evil" "@Evil" (w_now world0) None).
Proof.
  assert (Hne : "evil-chat@g.us" <> "" /\ "Evil" <> "" /\ "evil" <> "" /\ "@Evil" <> "")
    by (repeat split; discriminate).
  split; [repeat split; try reflexivity; apply Hne|].
  exact (proj1 (ipc_register_group_entry register_cmd "main" _ _ _ _ world0
                  eq_refl eq_refl eq_refl eq_refl eq_refl Hne)).
Defined.

(* ------------------------------------------------------------------ *)
(** ** The [errors/] directory *)

Lemma fs_rename_keeps_err (e g f : string) (k : MboxKind) (dst : IpcPath) (fs fs' : IpcFs) :
  fs_rename (MboxPath g k f) dst fs = Some fs' ->
  is_Some (fs_files fs !! ErrPath e) -> is_Some (fs_files fs' !! ErrPath e).
Proof.
  unfold fs_rename. destruct (fs_files fs !! MboxPath g k f); [|discriminate].
  intros [= <-] He. simpl.
  destruct (decide (dst = ErrPath e)) as [->|Hne].
  - rewrite lookup_insert_eq. by eexists.
  - rewrite lookup_insert_ne by congruence. by rewrite lookup_delete_ne.
Qed.

Lemma ipc_file_error_keeps_err (e g file : string) (k : MboxKind) (fs : IpcFs) (w : World) :
  is_Some (fs_files fs !! ErrPath e) ->
  is_Some (fs_files (fst (fst (ipc_file_error g k file fs w))) !! ErrPath e).
Proof.
  intros He. unfold ipc_file_error. cbv zeta.
  destruct (fs_exists (MboxPath g k (processing_name file)) fs);
    (destruct (fs_exists _ fs); [|done]);
    (destruct (fs_rename _ _ fs) as [fs'|] eqn:Hr; [|done]);
    simpl; eapply fs_rename_keeps_err; eauto.
Qed.

Lemma process_file_keeps_err (e : string) (h : JValue -> M unit) (g : string)
  (k : MboxKind) (file : string) (fs : IpcFs) (w : World) :
  is_Some (fs_files fs !! ErrPath e) ->
  is_Some (fs_files (fst (fst (process_file h g k file fs w))) !! ErrPath e).
Proof.
  intros He. unfold process_file.
  destruct (fs_rename _ _ fs) as [fs1|] eqn:Hr; [|by apply ipc_file_error_keeps_err].
  pose proof (fs_rename_keeps_err e _ _ _ _ _ _ Hr He) as He1.
  destruct (fs_read _ fs1) as [[fs2 c]|] eqn:Hrd; [|by apply ipc_file_error_keeps_err].
  assert (He2 : is_Some (fs_files fs2 !! ErrPath e)).
  { unfold fs_read in Hrd. destruct (fs_files fs1 !! MboxPath g k (processing_name file));
    simplify_eq. exact He1. }
  destruct (json_parse c w) as [w1 [v|x]]; [|by apply ipc_file_error_keeps_err].
  destruct (h v w1) as [w2 [u|x]]; [|by apply ipc_file_error_keeps_err].
  destruct (fs_unlink _ fs2) as [fs3|] eqn:Hu; [|by apply ipc_file_error_keeps_err].
  unfold fs_unlink in Hu. destruct (fs_files fs2 !! MboxPath g k (processing_name file));
  simplify_eq. simpl.
  by rewrite lookup_delete_ne.
Qed.

Lemma process_files_keeps_err (e : string) (h : JValue -> M unit) (g : string)
  (k : MboxKind) (files : list string) : forall (fs : IpcFs) (w : World),
  is_Some (fs_files fs !! ErrPath e) ->
  is_Some (fs_files (fst (fst (process_files h g k files fs w))) !! ErrPath e).
Proof.
  induction files as [|f rest IH]; intros fs w He; [done|]. simpl.
  pose proof (process_file_keeps_err e h g k f fs w He) as Hf.
  destruct (process_file h g k f fs w) as [[fs' w'] [u|x]]; simpl in Hf |- *; [|done].
  by apply IH.
Qed.

Lemma process_dir_keeps_err (e g : string) (isMain : bool) (k : MboxKind)
  (fs : IpcFs) (w : World) :
  is_Some (fs_files fs !! ErrPath e) ->
  is_Some (fs_files (fst (process_dir g isMain k fs w)) !! ErrPath e).
Proof.
  intros He. unfold process_dir.
  pose proof (process_files_keeps_err e (handler_for k g isMain) g k
                (list_json_files fs g k) fs w He) as Hf.
  by destruct (process_files _ _ _ _ fs w) as [[fs' w'] [u|x]].
Qed.

(** A poll tick never removes a file from [errors/]: every dead letter that
    exists before the tick still exists after it (a later failure of a file
    with the same group and name replaces its content). *)
Theorem ipc_tick_keeps_dead_letters (fs : IpcFs) (w : World) (e : string)
  (He : is_Some (fs_files fs !! ErrPath e)) :
  is_Some (fs_files (fst (process_ipc_tick fs w)) !! ErrPath e).
Proof.
  unfold process_ipc_tick.
  generalize (List.filter (fun f => negb (String.eqb f "errors")) (fs_dirs fs)) as dirs.
  intros dirs. revert fs w He.
  induction dirs as [|g dirs IH]; intros fs w He; [done|]. cbn [fold_left].
  pose proof (process_dir_keeps_err e g (String.eqb g (MAIN_GROUP_FOLDER (w_env w)))
                KMessages fs w He) as H1.
  destruct (process_dir g _ KMessages fs w) as [fs1 w1]. cbn in H1.
  pose proof (process_dir_keeps_err e g (String.eqb g (MAIN_GROUP_FOLDER (w_env w)))
                KTasks fs1 w1 H1) as H2.
  destruct (process_dir g _ KTasks fs1 w1) as [fs2 w2]. cbn in H2.
  by apply IH.
Qed.

Lemma ipc_tick_keeps_dead_letters_witness :
  is_Some (fs_files (fs_after_dead_letter "alice" KMessages "bad.json" (FRaw "{oops") fs_bad_msg)
             !! ErrPath "alice-bad.json")
  /\ is_Some (fs_files (fst (process_ipc_tick
                (fs_after_dead_letter "alice" KMessages "bad.json" (FRaw "{oops") fs_bad_msg) world0))
                !! ErrPath "alice-bad.json").
Proof.
  assert (He : is_Some (fs_files (fs_after_dead_letter "alice" KMessages "bad.json" (FRaw "{oops") fs_bad_msg)
                          !! ErrPath "alice-bad.json")) by (vm_compute; eexists; reflexivity).
  split; [exact He|]. exact (ipc_tick_keeps_dead_letters _ world0 _ He).
Defined.

(* ------------------------------------------------------------------ *)
(** ** Nothing pending *)

(** When no stored message of the chat is both newer than the chat's cursor
    and not one of the assistant's own ([ASSISTANT_NAME:] prefix), or when
    the chat is not registered, [processGroupMessages] returns [true] and
    leaves the world untouched: no agent run, no message, no log line, no
    database write and no cursor move. *)
Theorem processGroupMessages_idle (chatJid : string) (w : World)
  (H : w_groups w !! chatJid = None \/
       forall m, In m (w_msgs w) -> m_chat_jid m = chatJid ->
         String.ltb (default "" (w_last_agent_ts w !! chatJid)) (m_timestamp m) = false
         \/ starts_with (ASSISTANT_NAME (w_env w) ++ ":") (m_content m) = true) :
  processGroupMessages chatJid w = (w, Ok true).
Proof.
  unfold processGroupMessages, bindM, getsM. change (id w) with w.
  destruct (w_groups w !! chatJid) as [group|] eqn:Hg; [|reflexivity].
  destruct H as [H|H]; [discriminate|]. cbv zeta.
  replace (getMessagesSince chatJid (default "" (w_last_agent_ts w !! chatJid))
             (ASSISTANT_NAME (w_env w)) w) with (@nil StoredMsg); [reflexivity|].
  symmetry. unfold getMessagesSince.
  induction (w_msgs w) as [|m ms IH]; [reflexivity|]. cbn [List.filter].
  rewrite IH by (intros m' Hm'; apply H; right; exact Hm').
  destruct (String.eqb (m_chat_jid m) chatJid) eqn:Hc; [|reflexivity].
  apply String.eqb_eq in Hc.
  destruct (H m (or_introl eq_refl) Hc) as [Hlt|Hbot].
  - by rewrite Hlt.
  - by rewrite Hbot, andb_false_r.
Qed.

Lemma processGroupMessages_idle_witness :
  let w := set_last_agent_ts (<["alice-chat@g.us" := "2025-10-09T08:00:00.000Z"]> ∅)
             (set_msgs [msg_lunch;
                        mkMsg "m3" "alice-chat@g.us" "Andy" "Andy: sure"
                          "2025-10-09T08:10:00.000Z" true] world0) in
  w_groups w !! "alice-chat@g.us" = Some alice /\
  processGroupMessages "alice-chat@g.us" w = (w, Ok true).
Proof.
  intros w. split; [reflexivity|].
  apply processGroupMessages_idle. right.
  intros m [<-|[<-|[]]] _; [left|right]; vm_compute; reflexivity.
Defined.
